(** * A shallow embedding of the CSV-backed contact store

    The development follows [data.py] (class [CSVDataManager]) and the
    pagination helpers of [commands.py].

    Modelling choices.
    - The physical file is taken at the level at which [csv.reader] and
      [csv.writer] exchange data: a list of rows, each row a list of string
      fields.  The first row is the header.  A blank physical line is the
      empty row [[]].  Quoting and escaping are the business of the [csv]
      module and are not modelled.
    - Strings are sequences of 8-bit characters; [lower] and [int] are
      modelled on ASCII.
    - A Python exception is a value of [exn]; an operation that can raise
      returns a [result].  An operation that writes the file returns its
      result together with the state it leaves behind, so that what is on
      disk after an exception can be observed.
    - Faults of the operating system other than a missing file (permissions,
      full disk) are outside the model. *)

From Stdlib Require Import ZArith String Ascii DecimalString DecimalZ DecimalN.
From stdpp Require Import gmap strings list fin_maps sorting.

Open Scope string_scope.
Open Scope list_scope.
Open Scope Z_scope.

(** ** Exceptions and results *)

Inductive exn : Type :=
  | FileNotFoundError
  | KeyError (key : string)
  | AttributeError
  | TypeError
  | ValueError
  | TableDoesNotExist.   (* Exception("Table does not exist. ...") *)

Inductive result (A : Type) : Type :=
  | Ok (a : A)
  | Raise (e : exn).
Arguments Ok {A} a.
Arguments Raise {A} e.

#[global] Instance result_ret : MRet result := λ A a, Ok a.
#[global] Instance result_bind : MBind result := λ A B f m,
  match m with
  | Ok a => f a
  | Raise e => Raise e
  end.

(** [all(g(x) for x in l)]: stops at the first false element, and an
    exception raised by an element is raised by [all]. *)
Fixpoint all_ {A} (g : A → result bool) (l : list A) : result bool :=
  match l with
  | [] => Ok true
  | x :: l' => b ← g x; if b : bool then all_ g l' else Ok false
  end.

(** [[x for x in l if g(x)]] *)
Fixpoint filter_ {A} (g : A → result bool) (l : list A) : result (list A) :=
  match l with
  | [] => Ok []
  | x :: l' => b ← g x; l'' ← filter_ g l'; Ok (if b : bool then x :: l'' else l'')
  end.

(** [[g(x) for x in l]] *)
Fixpoint map_ {A B} (g : A → result B) (l : list A) : result (list B) :=
  match l with
  | [] => Ok []
  | x :: l' => y ← g x; l'' ← map_ g l'; Ok (y :: l'')
  end.

(** ** Strings: [str.lower], [int], [str] *)

Definition lower_ascii (c : ascii) : ascii :=
  let n := nat_of_ascii c in
  if ((65 <=? n) && (n <=? 90))%nat then ascii_of_nat (n + 32) else c.

Fixpoint lower (s : string) : string :=
  match s with
  | EmptyString => EmptyString
  | String c s' => String (lower_ascii c) (lower s')
  end.

(** White space as [int] strips it: tab, line feed, vertical tab, form
    feed, carriage return, the four separators 28..31 and the space. *)
Definition is_space (c : ascii) : bool :=
  let n := nat_of_ascii c in
  (((9 <=? n) && (n <=? 13)) || ((28 <=? n) && (n <=? 32)))%nat.

Fixpoint lstrip (s : string) : string :=
  match s with
  | String c s' => if is_space c then lstrip s' else s
  | EmptyString => EmptyString
  end.

Fixpoint rstrip (s : string) : string :=
  match s with
  | String c s' =>
      match rstrip s' with
      | EmptyString => if is_space c then EmptyString else String c EmptyString
      | t => String c t
      end
  | EmptyString => EmptyString
  end.

Definition is_digit (c : ascii) : bool :=
  let n := nat_of_ascii c in ((48 <=? n) && (n <=? 57))%nat.

(** Digits with single underscores between them: [true] when the string is
    a well-formed digit group.  [prev] tells whether the previous character
    was a digit. *)
Fixpoint digits_ok (prev : bool) (s : string) : bool :=
  match s with
  | EmptyString => prev
  | String c s' =>
      if is_digit c then digits_ok true s'
      else if (Ascii.eqb c "_" && prev)%bool then digits_ok false s'
      else false
  end.

Fixpoint drop_underscores (s : string) : string :=
  match s with
  | EmptyString => EmptyString
  | String c s' =>
      if Ascii.eqb c "_" then drop_underscores s' else String c (drop_underscores s')
  end.

Definition parse_digits (s : string) : option Z :=
  if digits_ok false s
  then (λ d, Z.of_N (N.of_uint d)) <$> NilEmpty.uint_of_string (drop_underscores s)
  else None.

(** [int(s)] for a string: [None] stands for [ValueError]. *)
Definition py_int (s : string) : option Z :=
  match rstrip (lstrip s) with
  | String "+" t => parse_digits t
  | String "-" t => Z.opp <$> parse_digits t
  | t => parse_digits t
  end.

(** [str(n)] for an integer. *)
Definition py_str (n : Z) : string := NilZero.string_of_int (Z.to_int n).

(** ** Records and the CSV dictionary codec *)

(** A row of the file, as [csv.reader] yields it, is a [list string]. *)

(** A record is the [dict] that [csv.DictReader] builds for a row.  Its
    keys are column names, with a string or [None] as value ([fields]);
    when the row is longer than the header, the surplus fields are kept as
    a list under the key [None] ([rest]). *)
Record record : Type := {
  fields : gmap string (option string);
  rest : option (list string)
}.

#[global] Instance record_eq_dec : EqDecision record.
Proof. solve_decision. Defined.

(** [dict(zip(fieldnames, row))]: a later pair overrides an earlier one. *)
Definition dict_zip (fieldnames : list string) (r : list string) : gmap string (option string) :=
  foldl (λ d kv, <[kv.1 := Some kv.2]> d) ∅ (zip fieldnames r).

(** [DictReader.__next__] after a non-blank row has been fetched. *)
Definition DictReader_row (fieldnames : list string) (r : list string) : record :=
  let d := dict_zip fieldnames r in
  let lf := length fieldnames in
  let lr := length r in
  if (lf <? lr)%nat then {| fields := d; rest := Some (drop lf r) |}
  else if (lr <? lf)%nat
       then {| fields := foldl (λ d key, <[key := None]> d) d (drop lr fieldnames);
               rest := None |}
       else {| fields := d; rest := None |}.

(** [csv.DictReader(file)]: the first row names the fields; blank rows
    after it are skipped. *)
Definition DictReader (rows : list (list string)) : list record :=
  match rows with
  | [] => []
  | fieldnames :: rows' => DictReader_row fieldnames <$> filter (λ r, r ≠ []) rows'
  end.

(** What [csv.writer] writes for a value: [None] is the empty field. *)
Definition field_text (v : option string) : string := default "" v.

(** [DictWriter._dict_to_list] followed by [writer.writerow]:
    [ValueError] if the dict has a key outside [fieldnames], otherwise the
    values in the order of [fieldnames], a missing key giving [restval = ''].*)
Definition dict_to_list (fieldnames : list string) (d : gmap string (option string))
  : list string :=
  (λ key, field_text (default (Some "") (d !! key))) <$> fieldnames.

Definition DictWriter_row (fieldnames : list string) (d : record) : result (list string) :=
  if bool_decide (dom (fields d) ∖ list_to_set fieldnames = (∅ : gset string))
     && bool_decide (rest d = None)
  then Ok (dict_to_list fieldnames (fields d))
  else Raise ValueError.

(** [row[key]] *)
Definition getitem (d : record) (key : string) : result (option string) :=
  match fields d !! key with
  | Some v => Ok v
  | None => Raise (KeyError key)
  end.

(** [v.lower()]: [None] has no such attribute. *)
Definition lower_ (v : option string) : result string :=
  match v with
  | Some s => Ok (lower s)
  | None => Raise AttributeError
  end.

(** [int(v)] *)
Definition int_ (v : option string) : result Z :=
  match v with
  | None => Raise TypeError
  | Some s => match py_int s with Some n => Ok n | None => Raise ValueError end
  end.

(** ** [sorted] and [islice] *)

Fixpoint insert_by_key {A} (x : string * A) (l : list (string * A)) : list (string * A) :=
  match l with
  | [] => [x]
  | y :: l' => if String.leb x.1 y.1 then x :: l else y :: insert_by_key x l'
  end.

(** A stable ascending sort on the string key: an element is placed
    before the elements that followed it and have a key not smaller. *)
Definition sort_by_key {A} (l : list (string * A)) : list (string * A) :=
  foldr insert_by_key [] l.

(** [sorted(records, key=lambda row: row[order_by])].  The keys are
    computed first (a missing column raises [KeyError]); comparing [None]
    with anything raises [TypeError], which needs at least two elements. *)
Definition sorted_by (order_by : string) (records : list record)
  : result (list record) :=
  keys ← map_ (λ d, getitem d order_by) records;
  match mapM (λ kd : option string * record, (λ k, (k, kd.2)) <$> kd.1) (zip keys records) with
  | Some l => Ok ((sort_by_key l).*2)
  | None => if (2 <=? length records)%nat then Raise TypeError else Ok records
  end.

(** [list(islice(l, start, stop))].  [islice] rejects an index that is
    negative or above [sys.maxsize], here that of a 64-bit platform. *)
Definition sys_maxsize : Z := 2 ^ 63 - 1.

Definition islice_index_ok (i : Z) : bool := (0 <=? i) && (i <=? sys_maxsize).

Definition islice {A} (l : list A) (start : Z) (stop : option Z) : result (list A) :=
  if islice_index_ok start && from_option islice_index_ok true stop
  then Ok (match stop with
           | Some e => take (Z.to_nat (e - start)) (drop (Z.to_nat start) l)
           | None => drop (Z.to_nat start) l
           end)
  else Raise ValueError.

(** ** The manager: the file on disk and the schema handle *)

(** [file] is the content of [self.file_name] ([None] when it does not
    exist); [field_names] is the attribute [self.field_names]. *)
Record manager : Type := {
  file : option (list (list string));
  field_names : option (list string)
}.

(** Truth value of [self.field_names]: [None] and [[]] are false. *)
Definition has_fields (st : manager) : bool :=
  match field_names st with
  | Some (_ :: _) => true
  | _ => false
  end.

Definition _get_field_names (f : option (list (list string))) : option (list string) :=
  match f with
  | None => None
  | Some rows => head rows
  end.

Definition create_table (columns : list string) (st : manager) : manager :=
  if has_fields st then st
  else {| file := Some [columns]; field_names := Some columns |}.

Definition drop_table (st : manager) : manager :=
  match file st with
  | Some _ => {| file := None; field_names := None |}
  | None => st
  end.

Definition default_columns : list string :=
  ["id"; "last_name"; "first_name"; "middle_name"; "work_phone";
   "personal_phone"; "date_added"].

(** [CSVDataManager.__init__] on a file system where the file has content [f]. *)
Definition init (f : option (list (list string))) : manager :=
  create_table default_columns {| file := f; field_names := _get_field_names f |}.

Definition list_ (criteria : option (list (string * string)))
    (order_by : option string) (row_slice : option (Z * option Z))
    (st : manager) : result (list record) :=
  match file st with
  | None => Raise FileNotFoundError
  | Some rows =>
      let records := DictReader rows in
      records ←
        match criteria with
        | Some ((_ :: _) as items) =>
            filter_ (λ d, all_ (λ kv : string * string,
                         v ← getitem d kv.1; s ← lower_ v; Ok (bool_decide (s = lower kv.2)))
                       items) records
        | _ => Ok records
        end;
      records ←
        match order_by with
        | Some (String _ _ as col) => sorted_by col records
        | _ => Ok records
        end;
      match row_slice with
      | Some (start_index, end_index) => islice records start_index end_index
      | None => Ok records
      end
  end.

(** The loop of [_get_last_id]: [last_id = int(row['id'])] for every row. *)
Fixpoint last_id_loop (last_id : Z) (records : list record) : result Z :=
  match records with
  | [] => Ok last_id
  | d :: records' => v ← getitem d "id"; n ← int_ v; last_id_loop n records'
  end.

Definition _get_last_id (st : manager) : result Z :=
  match file st with
  | None => Raise FileNotFoundError
  | Some rows => last_id_loop 0 (DictReader rows)
  end.

(** [add]: the row is appended to the file; the file is opened for
    appending before the row is checked against the field names. *)
Definition add (data : gmap string (option string)) (st : manager)
  : result unit * manager :=
  match field_names st with
  | Some ((_ :: _) as fieldnames) =>
      match _get_last_id st with
      | Raise e => (Raise e, st)
      | Ok last_id =>
          let data := <["id" := Some (py_str (last_id + 1))]> data in
          let rows := default [] (file st) in
          match DictWriter_row fieldnames {| fields := data; rest := None |} with
          | Raise e => (Raise e, {| file := Some rows; field_names := field_names st |})
          | Ok r => (Ok (), {| file := Some (rows ++ [r])%list; field_names := field_names st |})
          end
      end
  | _ => (Raise TableDoesNotExist, st)
  end.

(** The loop of [_overwrite_with]: rows already written stay in the file
    when a later one raises. *)
Fixpoint writerows (fieldnames : list string) (records : list record)
    (written : list (list string)) : result unit * list (list string) :=
  match records with
  | [] => (Ok (), written)
  | d :: records' =>
      match DictWriter_row fieldnames d with
      | Raise e => (Raise e, written)
      | Ok r => writerows fieldnames records' (written ++ [r])%list
      end
  end.

(** [_overwrite_with]: opening with mode ['w'] empties the file, then the
    header and the records are written.  With no field names
    [writeheader] raises [TypeError]. *)
Definition _overwrite_with (records : list record) (st : manager)
  : result unit * manager :=
  match field_names st with
  | None => (Raise TypeError, {| file := Some []; field_names := None |})
  | Some fieldnames =>
      let '(res, rows) := writerows fieldnames records [fieldnames] in
      (res, {| file := Some rows; field_names := field_names st |})
  end.

(** [all(row[key] == value for key, value in criteria.items())] *)
Definition matches_exactly (criteria : list (string * string)) (d : record)
  : result bool :=
  all_ (λ kv : string * string,
          v ← getitem d kv.1; Ok (bool_decide (v = Some kv.2))) criteria.

Definition delete (criteria : list (string * string)) (st : manager)
  : result unit * manager :=
  match list_ None None None st with
  | Raise e => (Raise e, st)
  | Ok records =>
      match filter_ (λ d, b ← matches_exactly criteria d; Ok (negb b)) records with
      | Raise e => (Raise e, st)
      | Ok records => _overwrite_with records st
      end
  end.

(** [for key, value in data.items(): row[key] = value] *)
Definition set_items (data : list (string * option string)) (d : record) : record :=
  {| fields := foldl (λ m kv, <[kv.1 := kv.2]> m) (fields d) data; rest := rest d |}.

Definition update (criteria : list (string * string))
    (data : list (string * option string)) (st : manager)
  : result unit * manager :=
  match list_ None None None st with
  | Raise e => (Raise e, st)
  | Ok records =>
      match map_ (λ d, b ← matches_exactly criteria d;
                       Ok (if b : bool then set_items data d else d)) records with
      | Raise e => (Raise e, st)
      | Ok records => _overwrite_with records st
      end
  end.

(** ** The pagination helpers of [commands.py] *)

(** [ListContactsCommand]: the ordering column and the page window
    [[start, end]]. *)
Record ListContactsCommand : Type := {
  order_by : option string;
  row_slice : Z * Z
}.

Section Pagination.

(** The constant that [commands.py] imports from [config]: the number of
    records of a page.  Its value is left open. *)
Variable ROWS_COUNT_IN_PAGE : Z.

Definition new_ListContactsCommand (order_by : option string) : ListContactsCommand :=
  {| order_by := order_by; row_slice := (0, ROWS_COUNT_IN_PAGE) |}.

(** [ListContactsCommand.execute]; the success flag, always [True], is
    left out. *)
Definition execute (command : ListContactsCommand)
    (data : option (list (string * string))) (st : manager) : result (list record) :=
  list_ data (order_by command)
    (Some ((row_slice command).1, Some (row_slice command).2)) st.

Definition get_previous_page_command (command : ListContactsCommand)
  : ListContactsCommand :=
  if ROWS_COUNT_IN_PAGE <=? (row_slice command).1
  then {| order_by := order_by command;
          row_slice := ((row_slice command).1 - ROWS_COUNT_IN_PAGE,
                        (row_slice command).2 - ROWS_COUNT_IN_PAGE) |}
  else {| order_by := order_by command; row_slice := (0, ROWS_COUNT_IN_PAGE) |}.

Definition get_next_page_command (st : manager) (command : ListContactsCommand)
  : result ListContactsCommand :=
  records ← list_ None None None st;
  let list_length := Z.of_nat (length records) in
  if list_length <? (row_slice command).2 + ROWS_COUNT_IN_PAGE
  then Ok {| order_by := order_by command;
             row_slice := (list_length - ROWS_COUNT_IN_PAGE, list_length) |}
  else Ok {| order_by := order_by command;
             row_slice := ((row_slice command).1 + ROWS_COUNT_IN_PAGE,
                           (row_slice command).2 + ROWS_COUNT_IN_PAGE) |}.

End Pagination.

(** ** The other commands of [commands.py] *)

(** [AddContactCommand.execute]: [date_added] is the timestamp given, or
    the current time when it is [None] or empty.  The reading of the clock,
    [datetime.utcnow().isoformat()], is the argument [now]. *)
Definition AddContactCommand_execute (now : string)
    (data : gmap string (option string)) (timestamp : option string)
    (st : manager) : result unit * manager :=
  let date_added :=
    match timestamp with
    | Some (String _ _ as t) => t
    | _ => now
    end in
  add (<["date_added" := Some date_added]> data) st.

(** [DeleteContactCommand.execute] *)
Definition DeleteContactCommand_execute (data : list (string * string))
    (st : manager) : result unit * manager :=
  delete data st.

(** [EditContactCommand.execute] on [{'id': id, 'update': fields}]. *)
Definition EditContactCommand_execute (id : string)
    (fields : list (string * option string)) (st : manager)
  : result unit * manager :=
  update [("id", id)] fields st.

(** ** Helpers of [main.py] *)








(** ** Vocabulary of the properties *)

(** Every line of the table has as many fields as the header. *)
Definition rectangular (header : list string) (rows : list (list string)) : Prop :=
  Forall (λ r, length r = length header) rows.

(** A table as the data model has it: distinct column names, at least one
    column, and rectangular lines. *)
Definition well_formed (header : list string) (rows : list (list string)) : Prop :=
  NoDup header ∧ header ≠ [] ∧ rectangular header rows.

(** The record holds the value [value] in column [key], up to letter case. *)
Definition ci_equal (d : record) (kv : string * string) : Prop :=
  match fields d !! kv.1 with
  | Some (Some s) => lower s = lower kv.2
  | _ => False
  end.

#[global] Instance ci_equal_dec d kv : Decision (ci_equal d kv).
Proof. unfold ci_equal. destruct (fields d !! kv.1) as [[s|]|]; apply _. Defined.

(** The record holds exactly the value of every pair of the criteria. *)
Definition matches_all (criteria : list (string * string)) (d : record) : Prop :=
  Forall (λ kv, fields d !! kv.1 = Some (Some kv.2)) criteria.

#[global] Instance matches_all_dec criteria d : Decision (matches_all criteria d).
Proof. unfold matches_all. apply _. Defined.

(** Calls of a client, run in sequence until one raises. *)
Inductive op : Type :=
  | OpAdd (data : gmap string (option string))
  | OpDelete (criteria : list (string * string)).

Definition step (o : op) (st : manager) : result unit * manager :=
  match o with
  | OpAdd data => add data st
  | OpDelete criteria => delete criteria st
  end.

Fixpoint run (ops : list op) (st : manager) : result unit * manager :=
  match ops with
  | [] => (Ok (), st)
  | o :: ops' =>
      match step o st with
      | (Ok _, st') => run ops' st'
      | (Raise e, st') => (Raise e, st')
      end
  end.

(** A table just created with the given columns. *)
Definition fresh (columns : list string) : manager :=
  create_table columns {| file := None; field_names := None |}.

(** The number held in the [id] column of a record, when there is one. *)
Definition id_of (d : record) : option Z :=
  match fields d !! "id" with
  | Some (Some s) => py_int s
  | _ => None
  end.

(** The ids stored in the table, and their maximum ([0] for no id). *)
Definition existing_ids (st : manager) : list Z :=
  omap id_of (DictReader (default [] (file st))).

Definition max_id (st : manager) : Z := foldr Z.max 0 (existing_ids st).

(** The number in the [id] column of a line. *)
Definition row_id (header r : list string) : option Z :=
  id_of (DictReader_row header r).

(** The lines carry positive ids that grow along the file. *)
Definition ids_increasing (header : list string) (rows : list (list string)) : Prop :=
  StronglySorted (λ r1 r2, ∃ n m, row_id header r1 = Some n
                               ∧ row_id header r2 = Some m ∧ n < m) rows
  ∧ Forall (λ r, ∃ n, row_id header r = Some n ∧ 0 < n) rows.

(** The states a client reaches from a fresh table by [add] and [delete]. *)
Definition table_inv (header : list string) (st : manager) : Prop :=
  ∃ rows, st = {| file := Some (header :: rows); field_names := Some header |}
          ∧ rectangular header rows ∧ ids_increasing header rows.

(** * Properties *)

(** Closed decidable facts are settled by evaluation. *)
Ltac by_compute := apply (bool_decide_unpack _); vm_compute; exact I.

(** ** [int] reads back what [str] prints *)

Lemma lstrip_uint d : lstrip (NilEmpty.string_of_uint d) = NilEmpty.string_of_uint d.
Proof. destruct d; reflexivity. Qed.

Lemma rstrip_uint d : rstrip (NilEmpty.string_of_uint d) = NilEmpty.string_of_uint d.
Proof.
  induction d; simpl; try reflexivity; rewrite IHd;
    destruct (NilEmpty.string_of_uint d); reflexivity.
Qed.

Lemma digits_ok_uint d : digits_ok true (NilEmpty.string_of_uint d) = true.
Proof. induction d; simpl; auto. Qed.

Lemma digits_ok_uint_nonnil d :
  d ≠ Decimal.Nil → digits_ok false (NilEmpty.string_of_uint d) = true.
Proof. destruct d; simpl; auto using digits_ok_uint; congruence. Qed.

Lemma drop_underscores_uint d :
  drop_underscores (NilEmpty.string_of_uint d) = NilEmpty.string_of_uint d.
Proof. induction d; simpl; congruence. Qed.

Lemma parse_digits_uint d :
  d ≠ Decimal.Nil →
  parse_digits (NilEmpty.string_of_uint d) = Some (Z.of_N (N.of_uint d)).
Proof.
  intros Hd. unfold parse_digits.
  rewrite digits_ok_uint_nonnil, drop_underscores_uint, NilEmpty.usu by done.
  reflexivity.
Qed.

Lemma py_int_uint d :
  d ≠ Decimal.Nil →
  py_int (NilEmpty.string_of_uint d) = Some (Z.of_N (N.of_uint d)).
Proof.
  intros Hd. unfold py_int. rewrite lstrip_uint, rstrip_uint.
  rewrite <- (parse_digits_uint d Hd).
  destruct d; reflexivity.
Qed.

Lemma py_int_str n : 0 <= n → py_int (py_str n) = Some n.
Proof.
  intros Hn. unfold py_str.
  destruct n as [|p|p]; [reflexivity| |lia].
  simpl. unfold NilZero.string_of_uint.
  pose proof (DecimalPos.Unsigned.to_uint_nonnil p) as Hnil.
  destruct (Pos.to_uint p) eqn:E; try congruence;
  rewrite <- E, py_int_uint by (rewrite E; congruence);
  f_equal; change (N.of_uint (Pos.to_uint p)) with (Pos.of_uint (Pos.to_uint p));
  rewrite DecimalPos.Unsigned.of_to; reflexivity.
Qed.

(** ** The comprehension combinators on elements that do not raise *)


Lemma filter__raise {A} (g : A → result bool) (l : list A) e :
  filter_ g l = Raise e → ∃ x, x ∈ l ∧ g x = Raise e.
Proof.
  induction l as [|x l IH]; [done|]. cbn.
  destruct (g x) as [b|e'] eqn:Hx; cbn.
  - destruct (filter_ g l) as [l'|e'] eqn:Hl; cbn; [done|].
    intros [= ->]. destruct IH as (y & ? & ?); [done|].
    exists y. split; [by right | done].
  - intros [= ->]. exists x. split; [by left | done].
Qed.


(** ** Decoding a row *)

Lemma dict_zip_acc_notin (fieldnames r : list string)
    (acc : gmap string (option string)) key :
  key ∉ fieldnames →
  foldl (λ d kv, <[kv.1 := Some kv.2]> d) acc (zip fieldnames r) !! key = acc !! key.
Proof.
  revert r acc. induction fieldnames as [|k ks IH]; intros r acc Hk; [done|].
  destruct r as [|v r]; [done|]. cbn.
  apply not_elem_of_cons in Hk as [Hne Hk].
  rewrite IH by done. by rewrite lookup_insert_ne.
Qed.

Lemma dict_zip_acc_lookup (fieldnames r : list string)
    (acc : gmap string (option string)) (i : nat) key v :
  NoDup fieldnames → fieldnames !! i = Some key → r !! i = Some v →
  foldl (λ d kv, <[kv.1 := Some kv.2]> d) acc (zip fieldnames r) !! key
  = Some (Some v).
Proof.
  revert r acc i. induction fieldnames as [|k ks IH]; intros r acc i Hnd Hk Hv; [done|].
  destruct r as [|v' r]; [done|]. apply NoDup_cons in Hnd as [Hnotin Hnd].
  destruct i as [|i]; cbn in *.
  - injection Hk as ->. injection Hv as ->.
    rewrite dict_zip_acc_notin by done. by rewrite lookup_insert_eq.
  - by eapply IH.
Qed.

Lemma DictReader_row_same_length (fieldnames r : list string) :
  length r = length fieldnames →
  DictReader_row fieldnames r = {| fields := dict_zip fieldnames r; rest := None |}.
Proof.
  intros Hlen. unfold DictReader_row. rewrite Hlen.
  by rewrite Nat.ltb_irrefl.
Qed.

Lemma fields_lookup (fieldnames r : list string) (i : nat) key v :
  NoDup fieldnames → length r = length fieldnames →
  fieldnames !! i = Some key → r !! i = Some v →
  fields (DictReader_row fieldnames r) !! key = Some (Some v).
Proof.
  intros Hnd Hlen Hk Hv. rewrite DictReader_row_same_length by done.
  by eapply dict_zip_acc_lookup.
Qed.

Lemma fields_lookup_notin (fieldnames r : list string) key :
  length r = length fieldnames → key ∉ fieldnames →
  fields (DictReader_row fieldnames r) !! key = None.
Proof.
  intros Hlen Hk. rewrite DictReader_row_same_length by done. cbn.
  unfold dict_zip. by rewrite dict_zip_acc_notin.
Qed.

(** In a line of the right length every column holds a string. *)
Lemma fields_lookup_in (fieldnames r : list string) key :
  length r = length fieldnames → key ∈ fieldnames →
  ∃ s, fields (DictReader_row fieldnames r) !! key = Some (Some s).
Proof.
  intros Hlen Hk. rewrite DictReader_row_same_length by done. cbn.
  unfold dict_zip. generalize (∅ : gmap string (option string)) as acc.
  revert r Hlen. induction fieldnames as [|k ks IH]; intros r Hlen acc.
  { by apply elem_of_nil in Hk. }
  destruct r as [|v r]; [done|]. cbn.
  destruct (decide (key ∈ ks)) as [Hin|Hnotin].
  - apply IH; [done | by injection Hlen].
  - apply elem_of_cons in Hk as [->|?]; [|done].
    rewrite dict_zip_acc_notin by done. rewrite lookup_insert_eq. by eexists.
Qed.

Lemma dict_to_list_DictReader_row (fieldnames r : list string) :
  NoDup fieldnames → length r = length fieldnames →
  dict_to_list fieldnames (fields (DictReader_row fieldnames r)) = r.
Proof.
  intros Hnd Hlen. apply list_eq. intros i. unfold dict_to_list.
  rewrite list_lookup_fmap.
  destruct (fieldnames !! i) as [key|] eqn:Hk; cbn.
  - destruct (lookup_lt_is_Some_2 r i) as [v Hv].
    { rewrite Hlen. by eapply lookup_lt_Some. }
    by rewrite (fields_lookup _ _ i key v), Hv.
  - symmetry. apply lookup_ge_None. rewrite Hlen. by apply lookup_ge_None.
Qed.

(** Writing back a line that was read gives the line. *)
Lemma DictWriter_row_DictReader_row (fieldnames r : list string) :
  NoDup fieldnames → length r = length fieldnames →
  DictWriter_row fieldnames (DictReader_row fieldnames r) = Ok r.
Proof.
  intros Hnd Hlen. unfold DictWriter_row.
  rewrite dict_to_list_DictReader_row by done.
  rewrite !bool_decide_eq_true_2; [done | |].
  - by rewrite DictReader_row_same_length.
  - apply set_eq. intros key. rewrite elem_of_difference, elem_of_dom, elem_of_list_to_set.
    split; [|set_solver]. intros [[v Hv] Hnotin].
    by rewrite fields_lookup_notin in Hv.
Qed.

Lemma writerows_DictReader_row (fieldnames : list string) rows written :
  NoDup fieldnames → rectangular fieldnames rows →
  writerows fieldnames (DictReader_row fieldnames <$> rows) written
  = (Ok (), (written ++ rows)%list).
Proof.
  intros Hnd Hrect. revert written.
  induction Hrect as [|r rows Hr _ IH]; intros written; cbn.
  - by rewrite app_nil_r.
  - rewrite DictWriter_row_DictReader_row by done. rewrite IH.
    by rewrite <- app_assoc.
Qed.

Lemma rectangular_no_blank (header : list string) rows :
  header ≠ [] → rectangular header rows → filter (λ r, r ≠ []) rows = rows.
Proof.
  intros Hne Hrect. induction Hrect as [|r rows Hr _ IH]; [done|].
  rewrite filter_cons, IH. destruct (decide (r ≠ [])) as [|Hblank]; [done|].
  destruct r; [|by destruct Hblank]. by destruct header.
Qed.

Lemma rectangular_filter (header : list string) rows (P : list string → Prop)
    `{!∀ r, Decision (P r)} :
  rectangular header rows → rectangular header (filter P rows).
Proof.
  unfold rectangular. induction 1 as [|r rows Hr _ IH]; [done|].
  rewrite filter_cons. case_decide; [by constructor | exact IH].
Qed.

Lemma pad_None_lookup_notin (l : list string) (d : gmap string (option string)) key :
  key ∉ l → foldl (λ d key, <[key := None]> d) d l !! key = d !! key.
Proof.
  revert d. induction l as [|k l IH]; intros d Hk; [done|]. cbn.
  apply not_elem_of_cons in Hk as [Hne Hk].
  rewrite IH by done. by rewrite lookup_insert_ne.
Qed.

Lemma pad_None_lookup_in (l : list string) (d : gmap string (option string)) key :
  key ∈ l → foldl (λ d key, <[key := None]> d) d l !! key = Some None.
Proof.
  revert d. induction l as [|k l IH]; intros d Hk.
  { by apply elem_of_nil in Hk. }
  cbn. destruct (decide (key ∈ l)) as [Hin|Hnotin]; [by apply IH|].
  apply elem_of_cons in Hk as [->|?]; [|done].
  rewrite pad_None_lookup_notin by done. by rewrite lookup_insert_eq.
Qed.

Lemma list_unfiltered (rows : list (list string)) fn :
  list_ None None None {| file := Some rows; field_names := fn |}
  = Ok (DictReader rows).
Proof. reflexivity. Qed.

(** C2, as the code has it: reading never raises on a line whose number of
    fields differs from the header's.  A blank line is skipped; a short line
    gives a record whose missing columns hold [None]; a long line gives a
    record that keeps the surplus fields as a list under the key [None]; in
    both the columns that are present hold the fields of the line. *)
Theorem list_tolerates_field_count_mismatch (header : list string) rows fn :
  list_ None None None {| file := Some (header :: rows); field_names := fn |}
  = Ok (DictReader_row header <$> filter (λ r, r ≠ []) rows)
  ∧ ∀ r : list string,
      ((length r < length header)%nat →
         rest (DictReader_row header r) = None
         ∧ ∀ key, key ∈ drop (length r) header →
                  fields (DictReader_row header r) !! key = Some None)
      ∧ ((length header < length r)%nat →
         rest (DictReader_row header r) = Some (drop (length header) r))
      ∧ (NoDup header → ∀ (i : nat) key v,
           header !! i = Some key → r !! i = Some v →
           fields (DictReader_row header r) !! key = Some (Some v)).
Proof.
  split; [done|]. intros r. unfold DictReader_row. split; [|split].
  - intros Hlt. destruct (Nat.ltb_spec (length header) (length r)); [lia|].
    destruct (Nat.ltb_spec (length r) (length header)); [|lia].
    split; [done|]. intros key Hkey. cbn. by apply pad_None_lookup_in.
  - intros Hlt. by destruct (Nat.ltb_spec (length header) (length r)); [|lia].
  - intros Hnd i key v Hk Hv.
    assert (dict_zip header r !! key = Some (Some v)) as Hzip
      by (by eapply dict_zip_acc_lookup).
    destruct (Nat.ltb_spec (length header) (length r)); [done|].
    destruct (Nat.ltb_spec (length r) (length header)); [|done].
    cbn. rewrite pad_None_lookup_notin; [done|].
    intros Hin. apply list_elem_of_lookup in Hin as [j Hj].
    rewrite lookup_drop in Hj.
    pose proof (NoDup_lookup _ _ _ _ Hnd Hk Hj) as ->.
    apply lookup_lt_Some in Hv. lia.
Qed.

Lemma list_tolerates_field_count_mismatch_witness :
  list_ None None None
    {| file := Some [["id"; "name"]; ["1"]; []; ["2"; "Ann"; "x"]];
       field_names := Some ["id"; "name"] |}
  = Ok (DictReader_row ["id"; "name"] <$> [["1"]; ["2"; "Ann"; "x"]])
  ∧ fields (DictReader_row ["id"; "name"] ["1"]) !! "name" = Some None
  ∧ fields (DictReader_row ["id"; "name"] ["1"]) !! "id" = Some (Some "1")
  ∧ rest (DictReader_row ["id"; "name"] ["2"; "Ann"; "x"]) = Some ["x"].
Proof.
  pose proof (list_tolerates_field_count_mismatch ["id"; "name"]
                [["1"]; []; ["2"; "Ann"; "x"]] (Some ["id"; "name"])) as [Hlist Hrow].
  split; [exact Hlist|].
  destruct (Hrow ["1"]) as (Hshort & _ & Hpresent).
  destruct (Hrow ["2"; "Ann"; "x"]) as (_ & Hlong & _).
  split; [|split].
  - apply Hshort; [simpl; lia|]. simpl. apply list_elem_of_here.
  - apply (Hpresent ltac:(by_compute) 0%nat "id" "1"); reflexivity.
  - apply Hlong. simpl. lia.
Defined.

(** The claim as written fails: a line with one field under a header of two
    columns is read without any error. *)
Lemma short_line_is_read_without_error :
  list_ None None None
    {| file := Some [["id"; "name"]; ["1"]]; field_names := Some ["id"; "name"] |}
  = Ok [DictReader_row ["id"; "name"] ["1"]]
  ∧ ∀ e, list_ None None None
           {| file := Some [["id"; "name"]; ["1"]]; field_names := Some ["id"; "name"] |}
         ≠ Raise e.
Proof. split; [reflexivity | discriminate]. Qed.

(** ** Filtering by criteria *)

Lemma filter_fmap_list {A B} (f : A → B) (P : B → Prop) `{!∀ y, Decision (P y)}
    (l : list A) :
  filter P (f <$> l) = f <$> filter (λ x, P (f x)) l.
Proof.
  induction l as [|x l IH]; [done|].
  rewrite fmap_cons, !filter_cons, IH. by case_decide.
Qed.

Lemma filter_ext_Forall {A} (P Q : A → Prop) `{!∀ x, Decision (P x)}
    `{!∀ x, Decision (Q x)} (l : list A) :
  Forall (λ x, P x ↔ Q x) l → filter P l = filter Q l.
Proof.
  induction 1 as [|x l Hx _ IH]; [done|].
  rewrite !filter_cons, IH. repeat case_decide; tauto.
Qed.



(** ** Deleting by criteria *)

Lemma all__raise {A} (g : A → result bool) (l : list A) e :
  all_ g l = Raise e → ∃ x, x ∈ l ∧ g x = Raise e.
Proof.
  induction l as [|x l IH]; [done|]. cbn.
  destruct (g x) as [[]|e'] eqn:Hx; cbn; [|done|].
  - intros Hl. destruct (IH Hl) as (y & ? & ?).
    exists y. split; [by right | done].
  - intros [= ->]. exists x. split; [by left | done].
Qed.

(** What [matches_exactly] answers is [matches_all]. *)
Lemma matches_exactly_Ok criteria d b :
  matches_exactly criteria d = Ok b → (b = true ↔ matches_all criteria d).
Proof.
  unfold matches_exactly, matches_all. revert b.
  induction criteria as [|[key value] criteria IH]; intros b; cbn.
  - intros [= <-]. split; [by constructor | done].
  - unfold getitem. destruct (fields d !! key) as [v|] eqn:Hv; cbn; [|done].
    case_bool_decide as Heq.
    + intros Hb. rewrite (IH b Hb), Forall_cons. cbn. rewrite Hv, Heq. tauto.
    + intros [= <-]. split; [done|]. rewrite Forall_cons. cbn. rewrite Hv.
      intros [[= ?] _]. congruence.
Qed.

(** It raises only [KeyError], for a column the record does not have. *)
Lemma matches_exactly_Raise criteria d e :
  matches_exactly criteria d = Raise e →
  ∃ kv, kv ∈ criteria ∧ fields d !! kv.1 = None.
Proof.
  intros Hraise. apply all__raise in Hraise as (kv & Hin & Hkv).
  exists kv. split; [done|]. unfold getitem in Hkv.
  by destruct (fields d !! kv.1).
Qed.

Lemma matches_exactly_total (header r : list string) criteria :
  length r = length header →
  Forall (λ kv : string * string, kv.1 ∈ header) criteria →
  ∃ b, matches_exactly criteria (DictReader_row header r) = Ok b.
Proof.
  intros Hlen Hkeys.
  destruct (matches_exactly criteria (DictReader_row header r)) as [b|e] eqn:Hm;
    [by eexists|].
  apply matches_exactly_Raise in Hm as (kv & Hin & Hnone).
  rewrite Forall_forall in Hkeys.
  destruct (fields_lookup_in header r kv.1 Hlen (Hkeys kv Hin)) as [s Hs].
  congruence.
Qed.

Lemma filter__Ok_matches criteria (records records' : list record) :
  filter_ (λ d, b ← matches_exactly criteria d; Ok (negb b)) records = Ok records' →
  records' = filter (λ d, ¬ matches_all criteria d) records.
Proof.
  revert records'. induction records as [|d records IH]; intros records';
    cbn [filter_ mbind result_bind].
  { by intros [= <-]. }
  destruct (matches_exactly criteria d) as [b|e] eqn:Hb;
    cbn [filter_ mbind result_bind]; [|done].
  destruct (filter_ _ records) as [l|e] eqn:Hl; cbn [mbind result_bind]; [|done].
  intros [= <-]. rewrite filter_cons, <- (IH l eq_refl).
  apply matches_exactly_Ok in Hb.
  destruct b; cbn; case_decide; try done.
  - tauto.
  - destruct Hb as [_ Hb]. by specialize (Hb ltac:(tauto)).
Qed.

(** The effect of [delete] on a well-formed table, whatever the criteria:
    the lines that stay are those that do not match every pair.  When a
    column of the criteria is not in the schema and a record reaches it,
    [KeyError] is raised and the file is untouched; no record matches then. *)
Lemma delete_file (header : list string) rows criteria :
  well_formed header rows →
  ∃ res,
    delete criteria {| file := Some (header :: rows); field_names := Some header |}
    = (res, {| file := Some (header ::
                  filter (λ r, ¬ matches_all criteria (DictReader_row header r)) rows);
               field_names := Some header |})
    ∧ (Forall (λ kv : string * string, kv.1 ∈ header) criteria → res = Ok ()).
Proof.
  intros (Hnd & Hne & Hrect). unfold delete.
  rewrite list_unfiltered. cbn [DictReader].
  rewrite (rectangular_no_blank header) by done.
  destruct (filter_ _ (DictReader_row header <$> rows)) as [records|e] eqn:Hf.
  - apply filter__Ok_matches in Hf. rewrite filter_fmap_list in Hf. subst records.
    exists (Ok ()). split; [|done]. unfold _overwrite_with. cbn [field_names].
    rewrite writerows_DictReader_row; [done | done |].
    by apply rectangular_filter.
  - exists (Raise e). apply filter__raise in Hf as (d & Hd & Hraise).
    destruct (matches_exactly criteria d) as [b|e'] eqn:Hm; [done|].
    apply matches_exactly_Raise in Hm as (kv & Hin & Hnone).
    apply list_elem_of_fmap in Hd as (r0 & -> & Hr0).
    assert (kv.1 ∉ header) as Hnotin.
    { intros Hk. unfold rectangular in Hrect. rewrite Forall_forall in Hrect.
      destruct (fields_lookup_in header r0 kv.1 (Hrect r0 Hr0) Hk) as [s Hs].
      congruence. }
    split.
    + do 4 f_equal. symmetry. transitivity (filter (λ _ : list string, True) rows).
      * apply filter_ext_Forall, (Forall_impl _ _ _ Hrect). intros r Hlen.
        split; [done|]. intros _ Hall. unfold matches_all in Hall.
        rewrite Forall_forall in Hall. specialize (Hall kv Hin).
        by rewrite fields_lookup_notin in Hall.
      * clear. induction rows as [|r rows IH]; [done|].
        by rewrite filter_cons_True, IH.
    + intros Hkeys. rewrite Forall_forall in Hkeys. destruct Hnotin. by apply Hkeys.
Qed.



(** C9: [delete] with empty criteria leaves the header line alone in the
    file, whatever the lines were; [list] then returns no record. *)
Theorem delete_empty_criteria_removes_all (header : list string) rows :
  delete [] {| file := Some (header :: rows); field_names := Some header |}
  = (Ok (), {| file := Some [header]; field_names := Some header |})
  ∧ list_ None None None {| file := Some [header]; field_names := Some header |}
    = Ok [].
Proof.
  split; [|done]. unfold delete. rewrite list_unfiltered.
  assert (∀ records : list record,
    filter_ (λ d, b ← matches_exactly [] d; Ok (negb b)) records = Ok []) as ->.
  { induction records as [|d records IH]; [done|]. cbn [filter_]. by rewrite IH. }
  reflexivity.
Qed.

(** ** Updating with a column that is not in the schema *)

Lemma set_items_lookup (data : list (string * option string)) d key :
  key ∈ data.*1 → is_Some (fields (set_items data d) !! key).
Proof.
  unfold set_items. cbn. generalize (fields d) as m.
  induction data as [|[k v] data IH]; intros m Hkey.
  { by apply elem_of_nil in Hkey. }
  cbn in *. destruct (decide (key ∈ data.*1)) as [Hin|Hnotin]; [by apply IH|].
  apply elem_of_cons in Hkey as [->|?]; [|done].
  clear IH Hnotin. assert (is_Some (<[k:=v]> m !! k)) as Hsome
    by (rewrite lookup_insert_eq; by eexists).
  revert Hsome. generalize (<[k:=v]> m) as m'. clear m.
  induction data as [|[k' v'] data IH]; intros m' Hsome; [done|].
  cbn in *. apply IH.
  destruct (decide (k' = k)) as [->|Hne].
  - rewrite lookup_insert_eq. by eexists.
  - by rewrite lookup_insert_ne.
Qed.

Lemma writerows_app (fieldnames : list string) (l1 l2 : list record) written :
  writerows fieldnames (l1 ++ l2) written
  = match writerows fieldnames l1 written with
    | (Ok _, written') => writerows fieldnames l2 written'
    | (Raise e, written') => (Raise e, written')
    end.
Proof.
  revert written. induction l1 as [|d l1 IH]; intros written; [done|].
  cbn. destruct (DictWriter_row fieldnames d); [apply IH | done].
Qed.

Lemma map__app {A B} (g : A → result B) (l1 l2 : list A) :
  map_ g (l1 ++ l2) = (x ← map_ g l1; y ← map_ g l2; Ok (x ++ y)).
Proof.
  induction l1 as [|a l1 IH]; cbn.
  - by destruct (map_ g l2).
  - destruct (g a); cbn; [|done]. rewrite IH.
    destruct (map_ g l1); cbn; [|done]. by destruct (map_ g l2).
Qed.

Lemma map__total {A B} (g : A → result B) (l : list A) :
  Forall (λ x, ∃ y, g x = Ok y) l → ∃ l', map_ g l = Ok l'.
Proof.
  induction 1 as [|x l [y Hy] _ [l' IH]]; [by eexists|].
  cbn. rewrite Hy, IH. by eexists.
Qed.

Lemma map__unchanged {A} (g : A → result A) (l : list A) :
  Forall (λ x, g x = Ok x) l → map_ g l = Ok l.
Proof.
  induction 1 as [|x l Hx _ IH]; [done|]. cbn. by rewrite Hx, IH.
Qed.

(** On a well-formed table, an update that names a column outside the
    schema and whose criteria match a record raises [ValueError] when that
    record is written back; by then the file holds the header and the lines
    before the first matching one only. *)
Lemma update_unknown_column (header : list string) before r after criteria data key :
  well_formed header (before ++ r :: after) →
  Forall (λ kv : string * string, kv.1 ∈ header) criteria →
  key ∈ data.*1 → key ∉ header →
  Forall (λ r', ¬ matches_all criteria (DictReader_row header r')) before →
  matches_all criteria (DictReader_row header r) →
  update criteria data
    {| file := Some (header :: before ++ r :: after); field_names := Some header |}
  = (Raise ValueError,
     {| file := Some (header :: before); field_names := Some header |}).
Proof.
  intros (Hnd & Hne & Hrect) Hkeys Hkey Hnotin Hbefore Hmatch.
  unfold update. rewrite list_unfiltered. cbn [DictReader].
  rewrite (rectangular_no_blank header) by done.
  apply Forall_app in Hrect as [Hrect1 Hrect2].
  apply Forall_cons in Hrect2 as [Hr Hrect2].
  rewrite fmap_app, fmap_cons, map__app.
  rewrite (map__unchanged _ (DictReader_row header <$> before)); last first.
  { apply Forall_fmap, Forall_forall. intros r' Hr'. cbn.
    rewrite Forall_forall in Hrect1, Hbefore.
    destruct (matches_exactly_total header r' criteria (Hrect1 r' Hr') Hkeys) as [b Hb].
    rewrite Hb. cbn. destruct b; [|done].
    apply matches_exactly_Ok in Hb. destruct (Hbefore r' Hr'). by apply Hb. }
  cbn [mbind result_bind map_].
  destruct (matches_exactly_total header r criteria Hr Hkeys) as [b Hb].
  rewrite Hb. cbn [mbind result_bind].
  assert (b = true) as -> by (by apply (matches_exactly_Ok _ _ _ Hb)).
  destruct (map__total
              (λ d, b ← matches_exactly criteria d;
                    Ok (if b : bool then set_items data d else d))
              (DictReader_row header <$> after)) as [after' ->].
  { apply Forall_fmap, (Forall_impl _ _ _ Hrect2). intros r' Hr'. cbn.
    destruct (matches_exactly_total header r' criteria Hr' Hkeys) as [b' ->].
    by eexists. }
  cbn [mbind result_bind]. unfold _overwrite_with. cbn [field_names].
  rewrite writerows_app, writerows_DictReader_row by done.
  cbn [writerows]. unfold DictWriter_row.
  rewrite bool_decide_eq_false_2; [done|].
  intros Hempty. apply (not_elem_of_empty (C := gset string) key).
  rewrite <- Hempty, elem_of_difference, elem_of_dom, elem_of_list_to_set.
  split; [by apply set_items_lookup | done].
Qed.

(** C3: the update names a column outside the schema and the criteria match
    the second of three records.  [ValueError] is raised, but only after the
    file was emptied and rewritten up to the offending record: the matched
    record and the one after it are lost. *)
Theorem update_unknown_column_truncates_file :
  let header := ["id"; "last_name"] in
  update [("id", "2")] [("nickname", Some "R")]
    {| file := Some [header; ["1"; "Doe"]; ["2"; "Roe"]; ["3"; "Poe"]];
       field_names := Some header |}
  = (Raise ValueError,
     {| file := Some [header; ["1"; "Doe"]]; field_names := Some header |}).
Proof. vm_compute. reflexivity. Qed.

(** ** Creating the table *)

(** The claim as written fails: the file exists, its first line is blank,
    and the constructor's [create_table] replaces a line of data by the
    header. *)
Lemma create_table_overwrites_existing_file :
  let f := Some [[]; ["1"; "Doe"; "Jane"; ""; ""; "555-1111"; "2023-05-01"]] in
  let st := {| file := f; field_names := _get_field_names f |} in
  file (create_table default_columns st) = Some [default_columns]
  ∧ file (create_table default_columns st) ≠ file st
  ∧ init f = {| file := Some [default_columns]; field_names := Some default_columns |}.
Proof. repeat split; discriminate. Qed.

(** C8, as the code has it: [create_table] looks at the schema handle, not
    at the file.  With a non-empty handle it changes nothing; with an empty
    one it writes a file that holds the header line only, and sets the
    handle.  At construction the handle is the first line of the file: an
    existing file whose first line has a field is kept as it is, a missing
    file is created, and an existing file that is empty or starts with a
    blank line is replaced by the header line. *)
Theorem create_table_guarded_by_handle (columns : list string) (st : manager) :
  (has_fields st = true → create_table columns st = st)
  ∧ (has_fields st = false →
     create_table columns st
     = {| file := Some [columns]; field_names := Some columns |})
  ∧ (∀ name header rows,
       init (Some ((name :: header) :: rows))
       = {| file := Some ((name :: header) :: rows);
            field_names := Some (name :: header) |})
  ∧ (∀ f, f = None ∨ f = Some [] ∨ (∃ rows, f = Some ([] :: rows)) →
       init f = {| file := Some [default_columns];
                   field_names := Some default_columns |}).
Proof.
  unfold create_table. repeat split; try done; try by intros ->.
  by intros f [->|[->|[rows ->]]].
Qed.

Lemma create_table_guarded_by_handle_witness :
  let st := {| file := Some [["id"; "name"]; ["1"; "Ann"]];
               field_names := Some ["id"; "name"] |} in
  let st0 := {| file := None; field_names := None |} in
  create_table default_columns st = st
  ∧ create_table default_columns st0
    = {| file := Some [default_columns]; field_names := Some default_columns |}
  ∧ init (Some [])
    = {| file := Some [default_columns]; field_names := Some default_columns |}.
Proof.
  intros st st0.
  destruct (create_table_guarded_by_handle default_columns st) as (Hkeep & _).
  destruct (create_table_guarded_by_handle default_columns st0)
    as (_ & Hnew & _ & Hinit).
  split; [|split]; [apply Hkeep | apply Hnew | apply Hinit]; try reflexivity.
  right. by left.
Defined.

(** ** Pagination *)

(** C6: when the window starts at or after one page and one more page fits
    below the total, the next page followed by the previous page is the
    window again.  The page size is not negative. *)
Theorem previous_of_next_page (ROWS_COUNT_IN_PAGE : Z) (st : manager)
    (command : ListContactsCommand) (records : list record) :
  0 <= ROWS_COUNT_IN_PAGE →
  list_ None None None st = Ok records →
  ROWS_COUNT_IN_PAGE <= (row_slice command).1 →
  (row_slice command).2 + ROWS_COUNT_IN_PAGE <= Z.of_nat (length records) →
  ∃ next_page_command,
    get_next_page_command ROWS_COUNT_IN_PAGE st command = Ok next_page_command
    ∧ get_previous_page_command ROWS_COUNT_IN_PAGE next_page_command = command.
Proof.
  intros Hsize Hlist Hstart Hend. unfold get_next_page_command.
  rewrite Hlist. cbn [mbind result_bind].
  destruct (Z.ltb_spec (Z.of_nat (length records))
              ((row_slice command).2 + ROWS_COUNT_IN_PAGE)); [lia|].
  eexists. split; [reflexivity|]. unfold get_previous_page_command. cbn.
  destruct (Z.leb_spec ROWS_COUNT_IN_PAGE ((row_slice command).1 + ROWS_COUNT_IN_PAGE));
    [|lia].
  destruct command as [ord [start stop]]. cbn. do 2 f_equal; lia.
Qed.

Lemma previous_of_next_page_witness :
  let st := {| file := Some [["id"]; ["1"]; ["2"]; ["3"]; ["4"]; ["5"]; ["6"]];
               field_names := Some ["id"] |} in
  let command := {| order_by := None; row_slice := (2, 4) |} in
  get_next_page_command 2 st command = Ok {| order_by := None; row_slice := (4, 6) |}
  ∧ get_previous_page_command 2 {| order_by := None; row_slice := (4, 6) |} = command.
Proof.
  intros st command.
  destruct (previous_of_next_page 2 st command
              (DictReader_row ["id"] <$> [["1"]; ["2"]; ["3"]; ["4"]; ["5"]; ["6"]]))
    as (next & Hnext & Hprevious).
  - lia.
  - reflexivity.
  - simpl. lia.
  - simpl. lia.
  - assert (next = {| order_by := None; row_slice := (4, 6) |}) as ->.
    { assert (Ok next = Ok {| order_by := None; row_slice := (4, 6) |}) as Heq
        by (rewrite <- Hnext; reflexivity).
      by injection Heq. }
    split; [exact Hnext | exact Hprevious].
Defined.

(** C10: when the table has fewer records than a page, the next page of a
    window that ends at a non-negative index is
    [[total - pageSize, total]], whose start is negative. *)
Theorem next_page_negative_start (ROWS_COUNT_IN_PAGE : Z) (st : manager)
    (command : ListContactsCommand) (records : list record) :
  list_ None None None st = Ok records →
  Z.of_nat (length records) < ROWS_COUNT_IN_PAGE →
  0 <= (row_slice command).2 →
  get_next_page_command ROWS_COUNT_IN_PAGE st command
  = Ok {| order_by := order_by command;
          row_slice := (Z.of_nat (length records) - ROWS_COUNT_IN_PAGE,
                        Z.of_nat (length records)) |}
  ∧ Z.of_nat (length records) - ROWS_COUNT_IN_PAGE < 0.
Proof.
  intros Hlist Htotal Hend. split; [|lia]. unfold get_next_page_command.
  rewrite Hlist. cbn [mbind result_bind].
  by destruct (Z.ltb_spec (Z.of_nat (length records))
                 ((row_slice command).2 + ROWS_COUNT_IN_PAGE)); [|lia].
Qed.

Lemma next_page_negative_start_witness :
  get_next_page_command 10
    {| file := Some [["id"]; ["1"]; ["2"]; ["3"]]; field_names := Some ["id"] |}
    {| order_by := None; row_slice := (0, 10) |}
  = Ok {| order_by := None; row_slice := (-7, 3) |}.
Proof.
  destruct (next_page_negative_start 10
              {| file := Some [["id"]; ["1"]; ["2"]; ["3"]]; field_names := Some ["id"] |}
              {| order_by := None; row_slice := (0, 10) |}
              (DictReader_row ["id"] <$> [["1"]; ["2"]; ["3"]]))
    as [Hnext _].
  - reflexivity.
  - simpl. lia.
  - simpl. lia.
  - exact Hnext.
Defined.

(** ** Slicing *)




(** ** Ids given by [add] *)

Lemma Forall_filter_list {A} (P Q : A → Prop) `{!∀ x, Decision (P x)} (l : list A) :
  Forall Q l → Forall Q (filter P l).
Proof.
  induction 1 as [|x l Hx _ IH]; [done|].
  rewrite filter_cons. case_decide; [by constructor | exact IH].
Qed.

Lemma StronglySorted_filter_list {A} (R : relation A) (P : A → Prop)
    `{!∀ x, Decision (P x)} (l : list A) :
  StronglySorted R l → StronglySorted R (filter P l).
Proof.
  induction 1 as [|x l _ IH Hx]; [constructor|].
  rewrite filter_cons. case_decide; [|exact IH].
  constructor; [exact IH | by apply Forall_filter_list].
Qed.

Lemma ids_increasing_filter header rows (P : list string → Prop)
    `{!∀ r, Decision (P r)} :
  ids_increasing header rows → ids_increasing header (filter P rows).
Proof.
  intros [Hsorted Hpos]. split.
  - by apply StronglySorted_filter_list.
  - by apply Forall_filter_list.
Qed.

Lemma foldr_max_nonneg (ns : list Z) : 0 <= foldr Z.max 0 ns.
Proof. induction ns; cbn; lia. Qed.

Lemma foldr_max_ge (ns : list Z) n : n ∈ ns → n <= foldr Z.max 0 ns.
Proof.
  induction ns as [|m ns IH]; [by intros ?%elem_of_nil|].
  intros [->|Hin]%elem_of_cons; cbn; [lia|]. specialize (IH Hin). lia.
Qed.

Lemma foldr_max_snoc (ns : list Z) n :
  Forall (λ m, m < n) ns → 0 < n → foldr Z.max 0 (ns ++ [n]) = n.
Proof.
  intros Hlt Hpos. induction Hlt as [|m ns Hm _ IH]; cbn; [lia|].
  rewrite IH. lia.
Qed.

Lemma existing_ids_rows (header : list string) rows :
  header ≠ [] → rectangular header rows →
  existing_ids {| file := Some (header :: rows); field_names := Some header |}
  = omap (row_id header) rows.
Proof.
  intros Hne Hrect. unfold existing_ids, default. cbn [file from_option id DictReader].
  rewrite (rectangular_no_blank header) by done.
  clear. induction rows as [|r rows IH]; [done|].
  cbn. unfold row_id. by rewrite IH.
Qed.

Lemma last_id_loop_snoc (records : list record) d a :
  last_id_loop a (records ++ [d])
  = (_ ← last_id_loop a records; v ← getitem d "id"; int_ v).
Proof.
  revert a. induction records as [|d' records IH]; intros a; cbn.
  - destruct (getitem d "id") as [v|]; cbn; [|done]. by destruct (int_ v).
  - destruct (getitem d' "id") as [v|]; cbn; [|done].
    destruct (int_ v); cbn; [|done]. apply IH.
Qed.

Lemma last_id_loop_total (header : list string) rows a :
  Forall (λ r, ∃ n, row_id header r = Some n ∧ 0 < n) rows →
  ∃ n, last_id_loop a (DictReader_row header <$> rows) = Ok n.
Proof.
  intros Hids. revert a. induction Hids as [|r rows (n & Hn & _) _ IH]; intros a.
  { by eexists. }
  cbn. unfold row_id, id_of, getitem in *.
  destruct (fields (DictReader_row header r) !! "id") as [[s|]|]; try done.
  cbn. rewrite Hn. cbn. apply IH.
Qed.

Lemma row_id_getitem header r n :
  row_id header r = Some n →
  (v ← getitem (DictReader_row header r) "id"; int_ v) = Ok n.
Proof.
  unfold row_id, id_of, getitem.
  destruct (fields (DictReader_row header r) !! "id") as [[s|]|]; try done.
  cbn. by intros ->.
Qed.

(** On ids that grow along the file the last id is the largest. *)
Lemma last_id_loop_max (header : list string) rows :
  ids_increasing header rows →
  last_id_loop 0 (DictReader_row header <$> rows)
  = Ok (foldr Z.max 0 (omap (row_id header) rows)).
Proof.
  intros [Hsorted Hpos]. destruct rows as [|r0 rows0] using rev_ind; [done|].
  clear IHrows0. rewrite fmap_app, omap_app. cbn [fmap list_fmap omap list_omap].
  apply Forall_app in Hpos as [Hpos Hlast].
  apply Forall_singleton in Hlast as (n & Hn & Hnpos).
  rewrite last_id_loop_snoc.
  destruct (last_id_loop_total header rows0 0 Hpos) as [m ->].
  cbn [mbind result_bind]. rewrite (row_id_getitem _ _ _ Hn), Hn.
  f_equal. symmetry. apply foldr_max_snoc; [|done].
  apply Forall_forall. intros k Hk.
  apply list_elem_of_omap in Hk as (r & Hr & Hrk).
  destruct (StronglySorted_app_1_elem_of _ _ _ r r0 Hsorted Hr) as (k' & n' & ? & ? & ?);
    [by left|]. congruence.
Qed.

Lemma dict_to_list_length (fieldnames : list string) d :
  length (dict_to_list fieldnames d) = length fieldnames.
Proof. unfold dict_to_list. by rewrite length_fmap. Qed.

(** The line that [add] writes carries the id it was given. *)
Lemma row_id_dict_to_list (header : list string) (d : gmap string (option string)) n :
  NoDup header → "id" ∈ header → 0 <= n →
  row_id header (dict_to_list header (<["id" := Some (py_str n)]> d)) = Some n.
Proof.
  intros Hnd Hin Hn. apply list_elem_of_lookup in Hin as [i Hi].
  unfold row_id, id_of.
  rewrite (fields_lookup header _ i "id" (py_str n)); try done.
  - by apply py_int_str.
  - apply dict_to_list_length.
  - unfold dict_to_list. rewrite list_lookup_fmap, Hi. cbn.
    by rewrite lookup_insert_eq.
Qed.

Lemma table_inv_fresh (columns : list string) :
  "id" ∈ columns → table_inv columns (fresh columns).
Proof.
  intros Hid. exists []. unfold fresh, create_table. cbn.
  split; [done|]. split; [constructor|]. split; constructor.
Qed.

Lemma table_inv_max_id (header : list string) rows :
  "id" ∈ header → rectangular header rows →
  max_id {| file := Some (header :: rows); field_names := Some header |}
  = foldr Z.max 0 (omap (row_id header) rows).
Proof.
  intros Hid Hrect. unfold max_id. rewrite existing_ids_rows; [done| |done].
  intros ->. by apply elem_of_nil in Hid.
Qed.

(** One [add] on a table of the invariant: the line written, and the
    invariant again.  The id is one more than the largest stored one. *)
Lemma add_table_inv (header : list string) rows (data : gmap string (option string)) :
  NoDup header → "id" ∈ header →
  rectangular header rows → ids_increasing header rows →
  let st := {| file := Some (header :: rows); field_names := Some header |} in
  let r := dict_to_list header (<["id" := Some (py_str (max_id st + 1))]> data) in
  let st' := {| file := Some (header :: rows ++ [r]); field_names := Some header |} in
  (dom data ⊆ (list_to_set header : gset string) → add data st = (Ok (), st'))
  ∧ (∀ st1, add data st = (Ok (), st1) → st1 = st')
  ∧ rectangular header (rows ++ [r]) ∧ ids_increasing header (rows ++ [r])
  ∧ max_id st' = max_id st + 1.
Proof.
  intros Hnd Hid Hrect Hinc st r st'.
  assert (header ≠ []) as Hne by (intros ->; by apply elem_of_nil in Hid).
  pose proof (table_inv_max_id header rows Hid Hrect) as Hmaxeq. fold st in Hmaxeq.
  assert (_get_last_id st = Ok (max_id st)) as Hlast.
  { rewrite Hmaxeq. unfold _get_last_id, st. cbn [file DictReader].
    rewrite (rectangular_no_blank header) by done.
    by rewrite last_id_loop_max. }
  assert (0 <= max_id st) as Hmax by (rewrite Hmaxeq; apply foldr_max_nonneg).
  assert (Forall (λ n, n < max_id st + 1) (omap (row_id header) rows)) as Hbelow.
  { apply Forall_forall. intros n Hn. apply Z.lt_succ_r.
    rewrite Hmaxeq. by apply foldr_max_ge. }
  assert (add data st
          = match DictWriter_row header
                    {| fields := <["id" := Some (py_str (max_id st + 1))]> data;
                       rest := None |} with
            | Ok r => (Ok (), {| file := Some ((header :: rows) ++ [r]);
                                 field_names := Some header |})
            | Raise e => (Raise e, st)
            end) as Hadd.
  { unfold add. cbn [field_names st]. destruct header as [|k ks]; [done|].
    by rewrite Hlast. }
  clearbody st. set (m := max_id st) in *.
  assert (row_id header r = Some (m + 1)) as Hr
    by (apply row_id_dict_to_list; [done | done | lia]).
  assert (rectangular header (rows ++ [r]) ∧ ids_increasing header (rows ++ [r]))
    as [Hrect' Hinc'].
  { split.
    - apply Forall_app. split; [done|]. apply Forall_singleton, dict_to_list_length.
    - destruct Hinc as [Hsorted Hpos]. split.
      + apply StronglySorted_app_2; [|done|repeat constructor].
        intros r1 r2 Hr1 ->%list_elem_of_singleton.
        rewrite Forall_forall in Hpos. destruct (Hpos r1 Hr1) as (n & Hn & _).
        exists n, (m + 1). split; [done|]. split; [done|].
        rewrite Forall_forall in Hbelow. apply Hbelow, list_elem_of_omap.
        by exists r1.
      + apply Forall_app. split; [done|]. apply Forall_singleton.
        exists (m + 1). split; [done | lia]. }
  split; [|split; [|split; [done|split; [done|]]]].
  - intros Hdom. rewrite Hadd. unfold DictWriter_row. cbn [fields rest].
    rewrite !bool_decide_eq_true_2; [done | done |].
    apply set_eq. intros key.
    rewrite elem_of_difference, dom_insert_L, elem_of_union, elem_of_singleton.
    split; [|by intros ?%elem_of_empty]. intros [[->|Hkey] Hnotin]; destruct Hnotin.
    + by apply elem_of_list_to_set.
    + by apply Hdom.
  - intros st1. rewrite Hadd. unfold DictWriter_row. cbn [fields rest].
    destruct (bool_decide _ && bool_decide _); [|done]. by intros [= <-].
  - unfold st'. rewrite table_inv_max_id by done.
    rewrite omap_app. cbn [omap list_omap]. rewrite Hr. cbn [mbind option_bind].
    apply foldr_max_snoc; [done | lia].
Qed.

Lemma step_table_inv (header : list string) o st st' :
  NoDup header → "id" ∈ header →
  table_inv header st → step o st = (Ok (), st') → table_inv header st'.
Proof.
  intros Hnd Hid (rows & -> & Hrect & Hinc) Hstep.
  destruct o as [data|criteria]; cbn [step] in Hstep.
  - destruct (add_table_inv header rows data Hnd Hid Hrect Hinc)
      as (_ & Hst' & Hrect' & Hinc' & _).
    rewrite (Hst' st' Hstep). by eexists.
  - destruct (delete_file header rows criteria) as (res & Hdel & _).
    { split; [done|]. split; [|done]. intros ->. by apply elem_of_nil in Hid. }
    rewrite Hdel in Hstep. injection Hstep as _ <-. eexists. split; [done|].
    split; [by apply rectangular_filter | by apply ids_increasing_filter].
Qed.

Lemma run_table_inv (header : list string) ops st st' :
  NoDup header → "id" ∈ header →
  table_inv header st → run ops st = (Ok (), st') → table_inv header st'.
Proof.
  intros Hnd Hid. revert st. induction ops as [|o ops IH]; intros st Hinv; cbn.
  { by intros [= <-]. }
  destruct (step o st) as [[[]|e] st1] eqn:Hstep; [|done].
  intros Hrun. eapply IH; [|done]. by eapply step_table_inv.
Qed.

(** [N] adds in a row, from a table of the invariant. *)
Lemma run_adds (header : list string) (ds : list (gmap string (option string))) rows m :
  NoDup header → "id" ∈ header →
  rectangular header rows → ids_increasing header rows →
  Forall (λ d, dom d ⊆ (list_to_set header : gset string)) ds →
  max_id {| file := Some (header :: rows); field_names := Some header |} = m →
  run (OpAdd <$> ds) {| file := Some (header :: rows); field_names := Some header |}
  = (Ok (), {| file := Some (header :: rows ++
                 imap (λ i d, dict_to_list header
                        (<["id" := Some (py_str (m + Z.of_nat (S i)))]> d)) ds);
               field_names := Some header |}).
Proof.
  intros Hnd Hid Hrect Hinc Hds. revert rows m Hrect Hinc.
  induction Hds as [|d ds Hd _ IH]; intros rows m Hrect Hinc Hm.
  { cbn. by rewrite app_nil_r. }
  destruct (add_table_inv header rows d Hnd Hid Hrect Hinc)
    as (Hadd & _ & Hrect' & Hinc' & Hmax).
  cbn zeta in Hadd, Hmax, Hrect', Hinc'. rewrite Hm in Hadd, Hmax, Hrect', Hinc'.
  cbn [fmap list_fmap run step]. rewrite (Hadd Hd).
  rewrite (IH _ (m + 1) Hrect' Hinc' Hmax). do 3 f_equal. rewrite <- app_assoc.
  cbn [app imap]. f_equal. f_equal. f_equal.
  apply imap_ext. intros i d' _. cbn. do 4 f_equal. lia.
Qed.

(** The claim as written fails: the id ["2"], freed by a delete, is given
    again by the next add.  Besides, the id is taken from the last line of
    the file, not from the largest id: below ids ["5"] and ["2"] the next id
    is ["3"]. *)
Lemma freed_id_is_reused :
  let columns := ["id"; "last_name"] in
  let named (s : string) : gmap string (option string) := {["last_name" := Some s]} in
  run [OpAdd (named "Doe"); OpAdd (named "Roe")] (fresh columns)
  = (Ok (), {| file := Some [columns; ["1"; "Doe"]; ["2"; "Roe"]];
               field_names := Some columns |})
  ∧ run [OpAdd (named "Doe"); OpAdd (named "Roe"); OpDelete [("id", "2")]]
      (fresh columns)
    = (Ok (), {| file := Some [columns; ["1"; "Doe"]]; field_names := Some columns |})
  ∧ run [OpAdd (named "Doe"); OpAdd (named "Roe"); OpDelete [("id", "2")];
         OpAdd (named "Poe")] (fresh columns)
    = (Ok (), {| file := Some [columns; ["1"; "Doe"]; ["2"; "Poe"]];
                 field_names := Some columns |})
  ∧ add (named "Poe")
      {| file := Some [columns; ["5"; "Doe"]; ["2"; "Roe"]]; field_names := Some columns |}
    = (Ok (), {| file := Some [columns; ["5"; "Doe"]; ["2"; "Roe"]; ["3"; "Poe"]];
                 field_names := Some columns |}).
Proof. repeat split; vm_compute; reflexivity. Qed.

(** C1, as the code has it.  On a table just created, with distinct columns
    among which [id], and data over the columns: [N] adds write the ids
    ["1"] to ["N"] in the order of the calls; and after any adds and deletes
    that did not raise, the next add appends one line whose id is one more
    than the largest id in the table ([1] when no record is left), hence
    larger than every id that is still stored.  Nothing is said of ids that
    were freed: the store does not remember them. *)
Theorem add_assigns_next_id (columns : list string) :
  NoDup columns → "id" ∈ columns →
  (∀ ds : list (gmap string (option string)),
     Forall (λ d, dom d ⊆ (list_to_set columns : gset string)) ds →
     run (OpAdd <$> ds) (fresh columns)
     = (Ok (), {| file := Some (columns ::
                     imap (λ i d, dict_to_list columns
                            (<["id" := Some (py_str (Z.of_nat (S i)))]> d)) ds);
                  field_names := Some columns |}))
  ∧ (∀ ops st (data : gmap string (option string)),
       run ops (fresh columns) = (Ok (), st) →
       dom data ⊆ (list_to_set columns : gset string) →
       ∃ lines,
         file st = Some lines
         ∧ add data st
           = (Ok (), {| file := Some (lines ++
                          [dict_to_list columns
                             (<["id" := Some (py_str (max_id st + 1))]> data)]);
                        field_names := Some columns |})
         ∧ Forall (λ n, n < max_id st + 1) (existing_ids st)).
Proof.
  intros Hnd Hid. split.
  - intros ds Hds.
    pose proof (run_adds columns ds [] 0 Hnd Hid) as Hrun.
    cbn [app] in Hrun. unfold fresh, create_table. cbn [has_fields field_names].
    rewrite Hrun; [|constructor|split; constructor|done|].
    + reflexivity.
    + by rewrite table_inv_max_id by (done || constructor).
  - intros ops st data Hrun Hdom.
    destruct (run_table_inv columns ops _ st Hnd Hid (table_inv_fresh columns Hid) Hrun)
      as (rows & -> & Hrect & Hinc).
    destruct (add_table_inv columns rows data Hnd Hid Hrect Hinc) as (Hadd & _).
    eexists. split; [reflexivity|]. split; [by apply Hadd|].
    apply Forall_forall. intros n Hn. apply Z.lt_succ_r. by apply foldr_max_ge.
Qed.

Lemma add_assigns_next_id_witness :
  let columns := ["id"; "last_name"] in
  let named (s : string) : gmap string (option string) := {["last_name" := Some s]} in
  run (OpAdd <$> [named "Doe"; named "Roe"; named "Poe"]) (fresh columns)
  = (Ok (), {| file := Some [columns; ["1"; "Doe"]; ["2"; "Roe"]; ["3"; "Poe"]];
               field_names := Some columns |})
  ∧ add (named "Coe")
      {| file := Some [columns; ["1"; "Doe"]; ["3"; "Poe"]]; field_names := Some columns |}
    = (Ok (), {| file := Some [columns; ["1"; "Doe"]; ["3"; "Poe"]; ["4"; "Coe"]];
                 field_names := Some columns |}).
Proof.
  intros columns named.
  destruct (add_assigns_next_id columns) as [Hadds Hnext];
    [by_compute | by_compute |].
  split.
  - rewrite Hadds; [reflexivity|]. by_compute.
  - destruct (Hnext [OpAdd (named "Doe"); OpAdd (named "Roe"); OpAdd (named "Poe");
                     OpDelete [("id", "2")]]
                _ (named "Coe") ltac:(vm_compute; reflexivity) ltac:(by_compute))
      as (lines & Hlines & Hadd & _).
    injection Hlines as <-. refine (eq_trans Hadd _). vm_compute. reflexivity.
Defined.

(** * Further properties of the store *)

(** ** Dropping the table and working without a file *)

(** X1: after [drop_table] the file does not exist, and a second
    [drop_table] changes nothing.  When the file existed, the schema handle
    is cleared with it, so that [create_table] afterwards starts a table
    with the header line only, whatever the file held before. *)
Theorem drop_table_then_create (columns : list string) (st : manager) :
  file (drop_table st) = None
  ∧ drop_table (drop_table st) = drop_table st
  ∧ (file st ≠ None →
     drop_table st = {| file := None; field_names := None |}
     ∧ create_table columns (drop_table st)
       = {| file := Some [columns]; field_names := Some columns |}).
Proof.
  unfold drop_table. destruct st as [[rows|] fn]; cbn; repeat split; done.
Qed.

Lemma drop_table_then_create_witness :
  create_table ["id"; "name"]
    (drop_table {| file := Some [["id"]; ["1"]; ["2"]]; field_names := Some ["id"] |})
  = {| file := Some [["id"; "name"]]; field_names := Some ["id"; "name"] |}.
Proof.
  destruct (drop_table_then_create ["id"; "name"]
              {| file := Some [["id"]; ["1"]; ["2"]]; field_names := Some ["id"] |})
    as (_ & _ & Hcreate).
  apply Hcreate. discriminate.
Defined.

(** X2: without the file every reading or rewriting operation raises
    [FileNotFoundError] and leaves the state as it is; [add] raises too,
    with the "table does not exist" exception when the schema handle is
    empty. *)
Theorem operations_without_file (st : manager) criteria order_by row_slice
    criteria' data fields (ROWS_COUNT_IN_PAGE : Z) command :
  file st = None →
  list_ criteria order_by row_slice st = Raise FileNotFoundError
  ∧ delete criteria' st = (Raise FileNotFoundError, st)
  ∧ update criteria' fields st = (Raise FileNotFoundError, st)
  ∧ add data st
    = (Raise (if has_fields st then FileNotFoundError else TableDoesNotExist), st)
  ∧ get_next_page_command ROWS_COUNT_IN_PAGE st command = Raise FileNotFoundError.
Proof.
  intros Hfile. unfold delete, update, add, get_next_page_command, _get_last_id,
    list_, has_fields.
  rewrite Hfile. repeat split; try done.
  by destruct (field_names st) as [[|k ks]|].
Qed.

Lemma operations_without_file_witness :
  let st := drop_table {| file := Some [["id"]; ["1"]]; field_names := Some ["id"] |} in
  list_ None None None st = Raise FileNotFoundError
  ∧ add ∅ st = (Raise TableDoesNotExist, st).
Proof.
  intros st.
  destruct (operations_without_file st None None None [] ∅ [] 10
              {| order_by := None; row_slice := (0, 10) |}) as (Hlist & _ & _ & Hadd & _).
  - reflexivity.
  - split; [exact Hlist | exact Hadd].
Defined.

(** ** What [add] does to the file *)



(** X4: [add] needs a column named [id].  On a table whose schema has no
    such column it always raises, whatever the data, and the state is left
    as it was. *)
Theorem add_needs_id_column (data : gmap string (option string)) (st : manager)
    (fieldnames : list string) :
  field_names st = Some fieldnames → "id" ∉ fieldnames →
  ∃ e, add data st = (Raise e, st).
Proof.
  intros Hfn Hid. unfold add, _get_last_id. destruct st as [f fn].
  cbn [file field_names] in *. subst fn.
  destruct fieldnames as [|k ks]; [by eexists|].
  destruct f as [rows|]; [|by eexists].
  destruct (last_id_loop 0 (DictReader rows)) as [n|e]; [|by eexists].
  unfold DictWriter_row. cbn [default from_option id fields rest].
  rewrite bool_decide_eq_false_2; [by eexists|].
  intros Hempty. apply (not_elem_of_empty (C := gset string) "id").
  rewrite <- Hempty, elem_of_difference, dom_insert_L, elem_of_list_to_set.
  split; [|done]. apply elem_of_union_l. by apply elem_of_singleton.
Qed.

Lemma add_needs_id_column_witness :
  let st := {| file := Some [["name"; "phone"]]; field_names := Some ["name"; "phone"] |} in
  add {["name" := Some "Ann"]} st = (Raise ValueError, st).
Proof.
  intros st.
  destruct (add_needs_id_column {["name" := Some "Ann"]} st ["name"; "phone"])
    as [e He].
  - reflexivity.
  - by_compute.
  - rewrite He. f_equal.
    assert ((add {["name" := Some "Ann"]} st).1 = Raise ValueError) as H1
      by (vm_compute; reflexivity).
    rewrite He in H1. exact H1.
Defined.

(** ** Opening the store again *)

(** X5: the constructor leaves a file that starts with a non-empty header
    line, with the schema handle equal to that line; and opening the store
    again on such a file gives the same state, so nothing is rewritten.  In
    particular constructing twice is the same as constructing once. *)
Theorem init_reopen (f : option (list (list string))) :
  (∃ name header rows,
     init f = {| file := Some ((name :: header) :: rows);
                 field_names := Some (name :: header) |})
  ∧ init (file (init f)) = init f
  ∧ ∀ st name header rows,
      st = {| file := Some ((name :: header) :: rows);
              field_names := Some (name :: header) |} →
      init (file st) = st.
Proof.
  assert (∀ st name header rows,
            st = {| file := Some ((name :: header) :: rows);
                    field_names := Some (name :: header) |} →
            init (file st) = st) as Hreopen by (by intros st ? ? ? ->).
  assert (∃ name header rows,
            init f = {| file := Some ((name :: header) :: rows);
                        field_names := Some (name :: header) |}) as Hinit.
  { unfold init, create_table, has_fields. destruct f as [[|[|name header] rows]|]; cbn;
      by eexists _, _, _. }
  split; [done|]. split; [|done].
  destruct Hinit as (name & header & rows & Hinit). by eapply Hreopen.
Qed.

Lemma init_reopen_witness :
  init (file (init (Some [["id"; "name"]; ["1"; "Ann"]])))
  = {| file := Some [["id"; "name"]; ["1"; "Ann"]]; field_names := Some ["id"; "name"] |}.
Proof.
  destruct (init_reopen (Some [["id"; "name"]; ["1"; "Ann"]])) as (_ & _ & Hreopen).
  apply (Hreopen (init (Some [["id"; "name"]; ["1"; "Ann"]])) "id" ["name"] [["1"; "Ann"]]).
  reflexivity.
Defined.

(** ** Page windows *)

(** X6: the window of the previous page never starts below zero, whatever
    the window and the page size; the ordering column is kept; a window as
    wide as a page stays as wide; and with a positive page size the first
    page is its own previous page. *)
Theorem previous_page_window (ROWS_COUNT_IN_PAGE : Z) (command : ListContactsCommand) :
  let previous := get_previous_page_command ROWS_COUNT_IN_PAGE command in
  0 <= (row_slice previous).1
  ∧ order_by previous = order_by command
  ∧ ((row_slice command).2 - (row_slice command).1 = ROWS_COUNT_IN_PAGE →
     (row_slice previous).2 - (row_slice previous).1 = ROWS_COUNT_IN_PAGE)
  ∧ (0 < ROWS_COUNT_IN_PAGE → row_slice command = (0, ROWS_COUNT_IN_PAGE) →
     previous = command).
Proof.
  unfold get_previous_page_command. destruct command as [ord [start stop]]. cbn.
  destruct (Z.leb_spec ROWS_COUNT_IN_PAGE start); cbn; repeat split; try lia.
  - intros Hpos [= -> ->]. lia.
  - by intros _ [= -> ->].
Qed.

Lemma previous_page_window_witness :
  get_previous_page_command 10 {| order_by := Some "last_name"; row_slice := (0, 10) |}
  = {| order_by := Some "last_name"; row_slice := (0, 10) |}
  ∧ (row_slice (get_previous_page_command 10
                  {| order_by := None; row_slice := (20, 30) |})).2
    - (row_slice (get_previous_page_command 10
                    {| order_by := None; row_slice := (20, 30) |})).1 = 10.
Proof.
  split.
  - destruct (previous_page_window 10
                {| order_by := Some "last_name"; row_slice := (0, 10) |})
      as (_ & _ & _ & Hfirst).
    apply Hfirst; [lia | reflexivity].
  - destruct (previous_page_window 10 {| order_by := None; row_slice := (20, 30) |})
      as (_ & _ & Hwidth & _).
    apply Hwidth. simpl. lia.
Defined.

(** X7: the window of the next page never ends beyond the number of
    records; the ordering column is kept; a window as wide as a page stays
    as wide; and with a positive page size a window that ends at the last
    record is its own next page. *)
Theorem next_page_window (ROWS_COUNT_IN_PAGE : Z) (st : manager)
    (command : ListContactsCommand) (records : list record) :
  list_ None None None st = Ok records →
  ∃ next,
    get_next_page_command ROWS_COUNT_IN_PAGE st command = Ok next
    ∧ (row_slice next).2 <= Z.of_nat (length records)
    ∧ order_by next = order_by command
    ∧ ((row_slice command).2 - (row_slice command).1 = ROWS_COUNT_IN_PAGE →
       (row_slice next).2 - (row_slice next).1 = ROWS_COUNT_IN_PAGE)
    ∧ (0 < ROWS_COUNT_IN_PAGE →
       (row_slice command).2 - (row_slice command).1 = ROWS_COUNT_IN_PAGE →
       (row_slice command).2 = Z.of_nat (length records) →
       next = command).
Proof.
  intros Hlist. unfold get_next_page_command. rewrite Hlist.
  cbn [mbind result_bind]. destruct command as [ord [start stop]]. cbn.
  destruct (Z.ltb_spec (Z.of_nat (length records)) (stop + ROWS_COUNT_IN_PAGE));
    eexists; (split; [reflexivity|]); cbn; repeat split; try lia.
  intros Hpos Hwidth <-. do 2 f_equal. lia.
Qed.

Lemma next_page_window_witness :
  let st := {| file := Some [["id"]; ["1"]; ["2"]; ["3"]; ["4"]; ["5"]];
               field_names := Some ["id"] |} in
  get_next_page_command 2 st {| order_by := None; row_slice := (3, 5) |}
  = Ok {| order_by := None; row_slice := (3, 5) |}.
Proof.
  intros st.
  destruct (next_page_window 2 st {| order_by := None; row_slice := (3, 5) |}
              (DictReader_row ["id"] <$> [["1"]; ["2"]; ["3"]; ["4"]; ["5"]]))
    as (next & Hnext & _ & _ & _ & Hlast).
  - reflexivity.
  - rewrite Hnext. f_equal. apply Hlast; simpl; lia.
Defined.

Lemma list_negative_start (st : manager) criteria order_by (records : list record)
    (start : Z) stop :
  list_ criteria order_by None st = Ok records → start < 0 →
  list_ criteria order_by (Some (start, stop)) st = Raise ValueError.
Proof.
  intros Hlist Hstart. unfold list_ in *. destruct (file st) as [rows|]; [|done].
  destruct (match criteria with Some (_ :: _ as items) => _ | _ => _ end)
    as [filtered|e]; cbn [mbind result_bind] in *; [|done].
  destruct (match order_by with Some (String _ _ as col) => _ | _ => _ end)
    as [sorted|e]; cbn [mbind result_bind] in *; [|done].
  unfold islice, islice_index_ok.
  by destruct (Z.leb_spec 0 start); [lia|].
Qed.

(** X8: when the table has fewer records than a page, the command that
    [get_next_page_command] returns cannot be executed: its window starts
    below zero and [islice] raises [ValueError], although the same listing
    without a window succeeds. *)
Theorem next_page_of_short_table_raises (ROWS_COUNT_IN_PAGE : Z) (st : manager)
    (command : ListContactsCommand) data (records listed : list record) :
  list_ None None None st = Ok records →
  Z.of_nat (length records) < ROWS_COUNT_IN_PAGE →
  0 <= (row_slice command).2 →
  list_ data (order_by command) None st = Ok listed →
  ∃ next,
    get_next_page_command ROWS_COUNT_IN_PAGE st command = Ok next
    ∧ execute next data st = Raise ValueError.
Proof.
  intros Hlist Htotal Hend Hlisted. unfold get_next_page_command.
  rewrite Hlist. cbn [mbind result_bind].
  destruct (Z.ltb_spec (Z.of_nat (length records))
              ((row_slice command).2 + ROWS_COUNT_IN_PAGE)); [|lia].
  eexists. split; [reflexivity|]. unfold execute. cbn [order_by row_slice fst snd].
  eapply list_negative_start; [done | lia].
Qed.

Lemma next_page_of_short_table_raises_witness :
  let st := {| file := Some [["id"]; ["1"]; ["2"]; ["3"]]; field_names := Some ["id"] |} in
  get_next_page_command 10 st {| order_by := None; row_slice := (0, 10) |}
  = Ok {| order_by := None; row_slice := (-7, 3) |}
  ∧ execute {| order_by := None; row_slice := (-7, 3) |} None st = Raise ValueError.
Proof.
  intros st.
  destruct (next_page_of_short_table_raises 10 st
              {| order_by := None; row_slice := (0, 10) |} None
              (DictReader_row ["id"] <$> [["1"]; ["2"]; ["3"]])
              (DictReader_row ["id"] <$> [["1"]; ["2"]; ["3"]]))
    as (next & Hnext & Hexecute).
  - reflexivity.
  - simpl. lia.
  - simpl. lia.
  - reflexivity.
  - assert (next = {| order_by := None; row_slice := (-7, 3) |}) as ->.
    { assert (Ok next = Ok {| order_by := None; row_slice := (-7, 3) |}) as Heq
        by (rewrite <- Hnext; reflexivity).
      by injection Heq. }
    split; [exact Hnext | exact Hexecute].
Defined.

(** ** What [update] changes *)

Lemma map__pure {A B} (g : A → result B) (h : A → B) (l : list A) :
  Forall (λ x, g x = Ok (h x)) l → map_ g l = Ok (h <$> l).
Proof.
  induction 1 as [|x l Hx _ IH]; [done|]. cbn [map_]. by rewrite Hx, IH.
Qed.

Lemma map__fmap {A B C} (f : A → B) (g : B → result C) (l : list A) :
  map_ g (f <$> l) = map_ (λ x, g (f x)) l.
Proof. induction l as [|x l IH]; [done|]. cbn [map_ fmap list_fmap]. by rewrite IH. Qed.

Lemma writerows_pure (fieldnames : list string) (g : list string → record)
    (h : list string → list string) rows written :
  Forall (λ r, DictWriter_row fieldnames (g r) = Ok (h r)) rows →
  writerows fieldnames (g <$> rows) written = (Ok (), written ++ (h <$> rows)).
Proof.
  intros Hrows. revert written.
  induction Hrows as [|r rows Hr _ IH]; intros written; cbn.
  - by rewrite app_nil_r.
  - rewrite Hr, IH. by rewrite <- app_assoc.
Qed.

Lemma set_items_lookup_notin (data : list (string * option string)) d key :
  key ∉ data.*1 → fields (set_items data d) !! key = fields d !! key.
Proof.
  unfold set_items. cbn. generalize (fields d) as m.
  induction data as [|[k v] data IH]; intros m Hkey; [done|].
  cbn in *. apply not_elem_of_cons in Hkey as [Hne Hkey].
  rewrite IH by done. by rewrite lookup_insert_ne.
Qed.

Lemma set_items_lookup_in (data : list (string * option string)) d key v :
  NoDup data.*1 → (key, v) ∈ data → fields (set_items data d) !! key = Some v.
Proof.
  unfold set_items. cbn. generalize (fields d) as m.
  induction data as [|[k v'] data IH]; intros m Hnd Hin.
  { by apply elem_of_nil in Hin. }
  cbn in *. apply NoDup_cons in Hnd as [Hnotin Hnd].
  apply elem_of_cons in Hin as [[= -> ->]|Hin]; [|by apply IH].
  pose proof (set_items_lookup_notin data {| fields := <[k:=v']> m; rest := None |} k Hnotin)
    as Hkeep.
  unfold set_items in Hkeep. cbn in Hkeep. rewrite Hkeep. apply lookup_insert_eq.
Qed.

Lemma dict_to_list_lookup (fieldnames : list string)
    (d : gmap string (option string)) (i : nat) key :
  fieldnames !! i = Some key →
  dict_to_list fieldnames d !! i = Some (field_text (default (Some "") (d !! key))).
Proof. intros Hk. unfold dict_to_list. by rewrite list_lookup_fmap, Hk. Qed.

(** The record of an updated line can be written back when the update
    names columns of the schema only. *)
Lemma DictWriter_row_set_items (header r : list string)
    (data : list (string * option string)) :
  length r = length header →
  Forall (λ kv : string * option string, kv.1 ∈ header) data →
  DictWriter_row header (set_items data (DictReader_row header r))
  = Ok (dict_to_list header (fields (set_items data (DictReader_row header r)))).
Proof.
  intros Hlen Hdata. unfold DictWriter_row.
  rewrite !bool_decide_eq_true_2; [done | |].
  - cbn. by rewrite DictReader_row_same_length.
  - apply set_eq. intros key.
    rewrite elem_of_difference, elem_of_dom, elem_of_list_to_set.
    split; [|by intros ?%elem_of_empty]. intros [[v Hv] Hnotin]. destruct Hnotin.
    destruct (decide (key ∈ data.*1)) as [Hin|Hout].
    + apply list_elem_of_fmap in Hin as (kv & -> & Hkv).
      rewrite Forall_forall in Hdata. by apply Hdata.
    + rewrite set_items_lookup_notin in Hv by done.
      destruct (decide (key ∈ header)) as [|Hno]; [done|].
      by rewrite fields_lookup_notin in Hv.
Qed.

(** The file after an [update] over columns of the schema, line for line. *)
Lemma update_file (header : list string) rows criteria
    (data : list (string * option string)) :
  well_formed header rows →
  Forall (λ kv : string * string, kv.1 ∈ header) criteria →
  Forall (λ kv : string * option string, kv.1 ∈ header) data →
  update criteria data
    {| file := Some (header :: rows); field_names := Some header |}
  = (Ok (),
     {| file := Some (header ::
          ((λ r, if decide (matches_all criteria (DictReader_row header r))
                 then dict_to_list header
                        (fields (set_items data (DictReader_row header r)))
                 else r) <$> rows));
        field_names := Some header |}).
Proof.
  intros (Hnd & Hne & Hrect) Hkeys Hdata.
  set (g := λ r, if decide (matches_all criteria (DictReader_row header r))
                 then set_items data (DictReader_row header r)
                 else DictReader_row header r).
  unfold update. rewrite list_unfiltered. cbn [DictReader].
  rewrite (rectangular_no_blank header) by done.
  rewrite map__fmap, (map__pure _ g); last first.
  { apply (Forall_impl _ _ _ Hrect). intros r Hlen. cbn.
    destruct (matches_exactly_total header r criteria Hlen Hkeys) as [b Hb].
    rewrite Hb. cbn. apply matches_exactly_Ok in Hb. unfold g.
    destruct b; case_decide; try done.
    - destruct Hb as [Hb _]. by specialize (Hb eq_refl).
    - destruct Hb as [_ Hb]. by specialize (Hb ltac:(done)). }
  unfold _overwrite_with. cbn [field_names].
  erewrite (writerows_pure header g); [done|].
  apply (Forall_impl _ _ _ Hrect). intros r Hlen. unfold g. case_decide.
  + by apply DictWriter_row_set_items.
  + by apply DictWriter_row_DictReader_row.
Qed.

(** X9: on a well-formed table, with criteria and update fields over
    columns of the schema, [update] does not raise and rewrites the file
    line for line: a line whose record does not match the criteria exactly
    is kept as it is; in a line that matches, a column named by the update
    holds the new value ([None] written as the empty field) and every other
    column keeps its field.  No line is added, removed or moved. *)
Theorem update_changes_named_fields (header : list string) rows criteria
    (data : list (string * option string)) :
  well_formed header rows →
  Forall (λ kv : string * string, kv.1 ∈ header) criteria →
  Forall (λ kv : string * option string, kv.1 ∈ header) data →
  NoDup data.*1 →
  ∃ rows',
    update criteria data
      {| file := Some (header :: rows); field_names := Some header |}
    = (Ok (), {| file := Some (header :: rows'); field_names := Some header |})
    ∧ length rows' = length rows
    ∧ ∀ (j : nat) r, rows !! j = Some r →
        (¬ matches_all criteria (DictReader_row header r) → rows' !! j = Some r)
        ∧ (matches_all criteria (DictReader_row header r) →
           ∃ r', rows' !! j = Some r' ∧ length r' = length r
             ∧ ∀ (i : nat) key, header !! i = Some key →
                 (∀ v, (key, v) ∈ data → r' !! i = Some (field_text v))
                 ∧ (key ∉ data.*1 → r' !! i = r !! i)).
Proof.
  intros Hwf Hkeys Hdata Hnodup.
  eexists. split; [by apply update_file|]. destruct Hwf as (Hnd & Hne & Hrect).
  split; [by rewrite length_fmap|].
  intros j r Hj. rewrite list_lookup_fmap, Hj. cbn [fmap option_fmap option_map].
  assert (length r = length header) as Hlen.
  { unfold rectangular in Hrect. rewrite Forall_forall in Hrect.
    apply Hrect. by eapply list_elem_of_lookup_2. }
  split; intros Hm; case_decide; try done.
  eexists. split; [done|]. split.
  { by rewrite dict_to_list_length. }
  intros i key Hkey. rewrite (dict_to_list_lookup _ _ _ _ Hkey). split.
  + intros v Hv. by rewrite (set_items_lookup_in _ _ _ v).
  + intros Hout. rewrite set_items_lookup_notin by done.
    destruct (lookup_lt_is_Some_2 r i) as [x Hx].
    { rewrite Hlen. by eapply lookup_lt_Some. }
    by rewrite (fields_lookup _ _ i key x), Hx.
Qed.

Lemma update_changes_named_fields_witness :
  let header := ["id"; "last_name"; "phone"] in
  update [("id", "2")] [("phone", Some "555")]
    {| file := Some [header; ["1"; "Doe"; "111"]; ["2"; "Roe"; "222"]];
       field_names := Some header |}
  = (Ok (), {| file := Some [header; ["1"; "Doe"; "111"]; ["2"; "Roe"; "555"]];
               field_names := Some header |}).
Proof.
  intros header.
  destruct (update_changes_named_fields header
              [["1"; "Doe"; "111"]; ["2"; "Roe"; "222"]]
              [("id", "2")] [("phone", Some "555")])
    as (rows' & Hupdate & _).
  - split; [by_compute|]. split; [discriminate|]. unfold rectangular. by_compute.
  - by_compute.
  - by_compute.
  - by_compute.
  - rewrite Hupdate. f_equal.
    assert ((update [("id", "2")] [("phone", Some "555")]
               {| file := Some [header; ["1"; "Doe"; "111"]; ["2"; "Roe"; "222"]];
                  field_names := Some header |}).2
            = {| file := Some [header; ["1"; "Doe"; "111"]; ["2"; "Roe"; "555"]];
                 field_names := Some header |}) as Hrun
      by (vm_compute; reflexivity).
    rewrite Hupdate in Hrun. exact Hrun.
Defined.

(** ** More on [delete] *)

Lemma filter_filter_same {A} (P : A → Prop) `{!∀ x, Decision (P x)} (l : list A) :
  filter P (filter P l) = filter P l.
Proof.
  induction l as [|x l IH]; [done|].
  rewrite filter_cons. case_decide; [|done].
  rewrite filter_cons. case_decide; [|done]. by rewrite IH.
Qed.

(** X10: on a well-formed table, deleting a second time with the same
    criteria changes nothing: the state after [delete] is a fixed point of
    that [delete], and the table is still well formed. *)
Theorem delete_twice (header : list string) rows criteria res st' :
  well_formed header rows →
  delete criteria {| file := Some (header :: rows); field_names := Some header |}
  = (res, st') →
  (∃ res', delete criteria st' = (res', st'))
  ∧ ∃ rows', st' = {| file := Some (header :: rows'); field_names := Some header |}
            ∧ well_formed header rows' ∧ rows' `sublist_of` rows.
Proof.
  intros Hwf Hdelete.
  destruct (delete_file header rows criteria Hwf) as (res0 & Hdel & _).
  rewrite Hdel in Hdelete. injection Hdelete as _ <-.
  assert (well_formed header
            (filter (λ r, ¬ matches_all criteria (DictReader_row header r)) rows))
    as Hwf'.
  { destruct Hwf as (? & ? & ?). repeat split; try done. by apply rectangular_filter. }
  split.
  - destruct (delete_file header _ criteria Hwf') as (res1 & Hdel1 & _).
    exists res1. by rewrite filter_filter_same in Hdel1.
  - eexists. split; [done|]. split; [done|]. apply sublist_filter.
Qed.

Lemma delete_twice_witness :
  let header := ["id"; "last_name"] in
  let st' := {| file := Some [header; ["1"; "Doe"]]; field_names := Some header |} in
  delete [("last_name", "Roe")] st' = (Ok (), st').
Proof.
  intros header st'.
  destruct (delete_twice header [["1"; "Doe"]; ["2"; "Roe"]] [("last_name", "Roe")]
              (Ok ()) st') as [[res' Hagain] _].
  - split; [by_compute|]. split; [discriminate|]. unfold rectangular. by_compute.
  - vm_compute. reflexivity.
  - rewrite Hagain. f_equal.
    assert ((delete [("last_name", "Roe")] st').1 = Ok ()) as Hres
      by (vm_compute; reflexivity).
    rewrite Hagain in Hres. exact Hres.
Defined.

(** ** Ids stay distinct *)

Lemma ids_increasing_omap (header : list string) rows :
  ids_increasing header rows →
  length (omap (row_id header) rows) = length rows
  ∧ StronglySorted Z.lt (omap (row_id header) rows)
  ∧ Forall (λ n, 0 < n) (omap (row_id header) rows).
Proof.
  intros [Hsorted Hpos]. induction Hsorted as [|r rows _ IH Hr]; cbn.
  { repeat split; constructor. }
  apply Forall_cons in Hpos as [(n & Hn & Hnpos) Hpos].
  destruct (IH Hpos) as (Hlen & Hsort & Hall). rewrite Hn. cbn.
  split; [by rewrite Hlen|]. split; [|by constructor].
  constructor; [done|]. apply Forall_forall. intros m Hm.
  apply list_elem_of_omap in Hm as (r' & Hr' & Hm).
  rewrite Forall_forall in Hr. destruct (Hr r' Hr') as (n' & m' & ? & ? & ?).
  congruence.
Qed.

Lemma StronglySorted_lt_NoDup (ns : list Z) : StronglySorted Z.lt ns → NoDup ns.
Proof.
  induction 1 as [|n ns _ IH Hn]; constructor; [|done].
  intros Hin. rewrite Forall_forall in Hn. specialize (Hn n Hin). lia.
Qed.

(** X11: on a table just created, with distinct columns among which [id],
    after any adds and deletes that did not raise every record has a
    numeric id, and the ids are positive, pairwise distinct and grow along
    the file. *)
Theorem ids_stay_distinct (columns : list string) ops (st : manager) :
  NoDup columns → "id" ∈ columns →
  run ops (fresh columns) = (Ok (), st) →
  ∃ rows,
    st = {| file := Some (columns :: rows); field_names := Some columns |}
    ∧ length (existing_ids st) = length rows
    ∧ StronglySorted Z.lt (existing_ids st)
    ∧ NoDup (existing_ids st)
    ∧ Forall (λ n, 0 < n) (existing_ids st).
Proof.
  intros Hnd Hid Hrun.
  destruct (run_table_inv columns ops _ st Hnd Hid (table_inv_fresh columns Hid) Hrun)
    as (rows & -> & Hrect & Hinc).
  exists rows. split; [done|].
  rewrite existing_ids_rows; [|by intros ->; apply elem_of_nil in Hid|done].
  destruct (ids_increasing_omap columns rows Hinc) as (Hlen & Hsorted & Hpos).
  repeat split; try done. by apply StronglySorted_lt_NoDup.
Qed.

Lemma ids_stay_distinct_witness :
  let columns := ["id"; "last_name"] in
  let named (s : string) : gmap string (option string) := {["last_name" := Some s]} in
  ∃ st, run [OpAdd (named "Doe"); OpAdd (named "Roe"); OpDelete [("id", "1")];
             OpAdd (named "Poe")] (fresh columns) = (Ok (), st)
        ∧ existing_ids st = [2; 3] ∧ NoDup (existing_ids st).
Proof.
  intros columns named. eexists. split; [vm_compute; reflexivity|].
  split; [vm_compute; reflexivity|].
  destruct (ids_stay_distinct columns
              [OpAdd (named "Doe"); OpAdd (named "Roe"); OpDelete [("id", "1")];
               OpAdd (named "Poe")]
              {| file := Some [columns; ["2"; "Roe"]; ["3"; "Poe"]];
                 field_names := Some columns |})
    as (rows & _ & _ & _ & Hnodup & _).
  - by_compute.
  - by_compute.
  - vm_compute. reflexivity.
  - exact Hnodup.
Defined.

(** ** Reading back what [add] wrote *)



(** ** Ordering *)

Lemma String_leb_refl (s : string) : String.leb s s = true.
Proof. by destruct (String.leb_total s s). Qed.

Lemma insert_by_key_Permutation {A} (x : string * A) l :
  insert_by_key x l ≡ₚ x :: l.
Proof.
  induction l as [|y l IH]; [done|]. cbn.
  destruct (String.leb x.1 y.1); [done|]. rewrite IH. apply Permutation_swap.
Qed.

Lemma sort_by_key_Permutation {A} (l : list (string * A)) : sort_by_key l ≡ₚ l.
Proof.
  induction l as [|x l IH]; [done|]. cbn.
  rewrite insert_by_key_Permutation. by rewrite IH.
Qed.

Lemma insert_by_key_Sorted {A} (x : string * A) l :
  Sorted (λ a b, String.leb a.1 b.1 = true) l →
  Sorted (λ a b, String.leb a.1 b.1 = true) (insert_by_key x l).
Proof.
  induction 1 as [|y l Hl IH Hy]; cbn.
  { repeat constructor. }
  destruct (String.leb x.1 y.1) eqn:Hxy.
  - constructor; [by constructor | by constructor].
  - constructor; [exact IH|].
    destruct l as [|z l]; cbn.
    + constructor. by destruct (String.leb_total x.1 y.1) as [Hle|Hle]; [congruence|].
    + destruct (String.leb x.1 z.1).
      * constructor. by destruct (String.leb_total x.1 y.1) as [Hle|Hle]; [congruence|].
      * constructor. by inversion Hy.
Qed.

Lemma sort_by_key_Sorted {A} (l : list (string * A)) :
  Sorted (λ a b, String.leb a.1 b.1 = true) (sort_by_key l).
Proof.
  induction l as [|x l IH]; [constructor|]. by apply insert_by_key_Sorted.
Qed.

Lemma insert_by_key_filter {A} (x : string * A) l (s : string) :
  filter (λ a, a.1 = s) (insert_by_key x l) = filter (λ a, a.1 = s) (x :: l).
Proof.
  induction l as [|y l IH]; [done|]. cbn [insert_by_key].
  destruct (String.leb x.1 y.1) eqn:Hxy; [done|].
  rewrite filter_cons, IH, !filter_cons.
  destruct (decide (y.1 = s)) as [Hy|?]; [|done].
  destruct (decide (x.1 = s)) as [Hx|?]; [|done].
  rewrite Hx, Hy, String_leb_refl in Hxy. done.
Qed.

Lemma sort_by_key_filter {A} (l : list (string * A)) (s : string) :
  filter (λ a, a.1 = s) (sort_by_key l) = filter (λ a, a.1 = s) l.
Proof.
  induction l as [|x l IH]; [done|]. cbn [sort_by_key foldr].
  rewrite insert_by_key_filter, !filter_cons. fold (sort_by_key l). by rewrite IH.
Qed.

(** The sorting key of a record for a column that holds a string. *)
Lemma sorted_by_keys (col : string) (records : list record) (kf : record → string) :
  Forall (λ d, fields d !! col = Some (Some (kf d))) records →
  sorted_by col records = Ok ((sort_by_key ((λ d, (kf d, d)) <$> records)).*2).
Proof.
  intros Hkeys. unfold sorted_by.
  rewrite (map__pure _ (λ d, Some (kf d))); last first.
  { apply (Forall_impl _ _ _ Hkeys). intros d Hd. unfold getitem. by rewrite Hd. }
  cbn [mbind result_bind].
  assert (mapM (λ kd : option string * record, (λ k, (k, kd.2)) <$> kd.1)
            (zip ((λ d, Some (kf d)) <$> records) records)
          = Some ((λ d, (kf d, d)) <$> records)) as ->; [|done].
  clear. induction records as [|d records IH]; [done|]. cbn. by rewrite IH.
Qed.

(** X13: on a table whose lines have the header's number of fields, [list]
    ordered by a column of the schema returns the records it returns
    without ordering, rearranged: the result is a permutation, each record
    is followed by one whose key is not smaller in the order of strings, and
    records with the same key keep their order in the file. *)
Theorem list_order_by_is_stable_sort (header : list string) rows fn (col : string) :
  rectangular header rows → col ∈ header → col ≠ "" →
  ∃ records sorted,
    list_ None None None {| file := Some (header :: rows); field_names := fn |}
    = Ok records
    ∧ list_ None (Some col) None {| file := Some (header :: rows); field_names := fn |}
      = Ok sorted
    ∧ sorted ≡ₚ records
    ∧ Sorted (λ a b, ∃ s t, fields a !! col = Some (Some s)
                            ∧ fields b !! col = Some (Some t)
                            ∧ String.leb s t = true) sorted
    ∧ ∀ s : string,
        filter (λ d, fields d !! col = Some (Some s)) sorted
        = filter (λ d, fields d !! col = Some (Some s)) records.
Proof.
  intros Hrect Hcol Hne.
  assert (header ≠ []) as Hhdr by (intros ->; by apply elem_of_nil in Hcol).
  set (kf := λ d : record, match fields d !! col with Some (Some s) => s | _ => "" end).
  set (records := DictReader_row header <$> rows).
  assert (Forall (λ d, fields d !! col = Some (Some (kf d))) records) as Hkeys.
  { apply Forall_fmap, (Forall_impl _ _ _ Hrect). intros r Hlen. cbn. unfold kf.
    by destruct (fields_lookup_in header r col Hlen Hcol) as [s ->]. }
  set (pairs := (λ d, (kf d, d)) <$> records).
  assert (Forall (λ p : string * record, fields p.2 !! col = Some (Some p.1))
            (sort_by_key pairs)) as Hsorted_keys.
  { rewrite sort_by_key_Permutation. by apply Forall_fmap. }
  exists records, (sort_by_key pairs).*2.
  split; [|split; [|split; [|split]]].
  - rewrite list_unfiltered. cbn [DictReader].
    by rewrite (rectangular_no_blank header).
  - unfold list_. cbn [file DictReader mbind result_bind].
    rewrite (rectangular_no_blank header) by done. fold records.
    destruct col as [|c col']; [done|]. by rewrite (sorted_by_keys _ _ kf).
  - rewrite sort_by_key_Permutation. unfold pairs.
    rewrite <- list_fmap_compose. by rewrite list_fmap_id.
  - pose proof (sort_by_key_Sorted pairs) as Hsorted.
    induction Hsorted as [|p l Hl IH Hp]; [constructor|].
    apply Forall_cons in Hsorted_keys as [Hpkey Hlkeys].
    cbn. constructor; [by apply IH|].
    destruct Hp as [|q l Hpq]; constructor.
    apply Forall_cons in Hlkeys as [Hqkey _]. by exists p.1, q.1.
  - intros s.
    transitivity ((filter (λ p : string * record, p.1 = s) (sort_by_key pairs)).*2).
    { rewrite filter_fmap_list. f_equal.
      apply filter_ext_Forall, (Forall_impl _ _ _ Hsorted_keys).
      intros p Hp. cbn. rewrite Hp. split; congruence. }
    rewrite sort_by_key_filter. unfold pairs.
    rewrite filter_fmap_list, <- list_fmap_compose, list_fmap_id.
    apply filter_ext_Forall, (Forall_impl _ _ _ Hkeys).
    intros d Hd. cbn. rewrite Hd. split; congruence.
Qed.

Lemma list_order_by_is_stable_sort_witness :
  let header := ["id"; "last_name"] in
  list_ None (Some "last_name") None
    {| file := Some [header; ["1"; "Roe"]; ["2"; "Doe"]; ["3"; "Roe"]; ["4"; "Doe"]];
       field_names := Some header |}
  = Ok (DictReader_row header <$>
          [["2"; "Doe"]; ["4"; "Doe"]; ["1"; "Roe"]; ["3"; "Roe"]]).
Proof.
  intros header.
  destruct (list_order_by_is_stable_sort header
              [["1"; "Roe"]; ["2"; "Doe"]; ["3"; "Roe"]; ["4"; "Doe"]]
              (Some header) "last_name")
    as (records & sorted & _ & Hsorted & _).
  - unfold rectangular. by_compute.
  - by_compute.
  - discriminate.
  - rewrite Hsorted. f_equal.
    assert (Ok sorted = Ok (DictReader_row header <$>
              [["2"; "Doe"]; ["4"; "Doe"]; ["1"; "Roe"]; ["3"; "Roe"]])) as Heq
      by (rewrite <- Hsorted; vm_compute; reflexivity).
    by injection Heq.
Defined.

(** ** Columns that are not in the schema *)

(** X14: [list] with criteria, or ordered by a column, that name a column
    outside the schema: on a table with at least one line and rectangular
    lines, a first criterion on an unknown column raises [KeyError] for that
    column, and so does an unknown ordering column; on a table without
    lines nothing is looked up and the empty list is returned. *)
Theorem list_unknown_column (header : list string) rows fn (key value : string)
    criteria :
  key ∉ header → key ≠ "" →
  (rectangular header rows → rows ≠ [] → header ≠ [] →
     list_ (Some ((key, value) :: criteria)) None None
       {| file := Some (header :: rows); field_names := fn |}
     = Raise (KeyError key)
     ∧ list_ None (Some key) None
         {| file := Some (header :: rows); field_names := fn |}
       = Raise (KeyError key))
  ∧ list_ (Some ((key, value) :: criteria)) (Some key) None
      {| file := Some [header]; field_names := fn |} = Ok [].
Proof.
  intros Hkey Hne. split; [|by destruct key].
  intros Hrect Hrows Hhdr. destruct rows as [|r rows]; [done|].
  apply Forall_cons in Hrect as [Hlen Hrect].
  assert (getitem (DictReader_row header r) key = Raise (KeyError key)) as Hget.
  { unfold getitem. by rewrite fields_lookup_notin. }
  unfold list_. cbn [file DictReader].
  rewrite (rectangular_no_blank header (r :: rows)) by (done || by constructor).
  split.
  - cbn. by rewrite Hget.
  - destruct key as [|c key']; [done|]. cbn [mbind result_bind].
    unfold sorted_by. cbn. by rewrite Hget.
Qed.

Lemma list_unknown_column_witness :
  list_ (Some [("nickname", "x")]) None None
    {| file := Some [["id"; "name"]; ["1"; "Ann"]]; field_names := Some ["id"; "name"] |}
  = Raise (KeyError "nickname").
Proof.
  destruct (list_unknown_column ["id"; "name"] [["1"; "Ann"]] (Some ["id"; "name"])
              "nickname" "x" []) as [Hraise _].
  - by_compute.
  - discriminate.
  - apply Hraise; [unfold rectangular; by_compute | discriminate | discriminate].
Defined.

(** ** Adding a contact through the command *)

(** X15: on the table that the constructor creates, after any adds and
    deletes that did not raise, [AddContactCommand] with data over the
    columns of that table succeeds and appends one line: the next id, the
    five contact fields as given (empty when [None] or missing), and as
    date the timestamp given, or the current time when the timestamp is
    [None] or empty. *)
Theorem add_contact_on_default_table (now : string) ops (st : manager)
    (data : gmap string (option string)) (timestamp : option string) :
  run ops (init None) = (Ok (), st) →
  dom data ⊆ (list_to_set default_columns : gset string) →
  ∃ lines,
    file st = Some lines
    ∧ AddContactCommand_execute now data timestamp st
      = (Ok (),
         {| file := Some (lines ++
              [[py_str (max_id st + 1);
                field_text (default (Some "") (data !! "last_name"));
                field_text (default (Some "") (data !! "first_name"));
                field_text (default (Some "") (data !! "middle_name"));
                field_text (default (Some "") (data !! "work_phone"));
                field_text (default (Some "") (data !! "personal_phone"));
                match timestamp with Some (String _ _ as t) => t | _ => now end]]);
            field_names := Some default_columns |}).
Proof.
  intros Hrun Hdom.
  assert (NoDup default_columns) as Hnd by by_compute.
  assert ("id" ∈ default_columns) as Hid by by_compute.
  destruct (run_table_inv default_columns ops _ st Hnd Hid
              (table_inv_fresh default_columns Hid) Hrun)
    as (rows & -> & Hrect & Hinc).
  eexists. split; [reflexivity|]. unfold AddContactCommand_execute.
  set (stamp := match timestamp with Some (String _ _ as t) => t | _ => now end).
  destruct (add_table_inv default_columns rows (<["date_added" := Some stamp]> data)
              Hnd Hid Hrect Hinc) as (Hadd & _).
  cbn zeta in Hadd. rewrite Hadd; last first.
  { rewrite dom_insert_L. apply union_subseteq. split; [|done].
    apply singleton_subseteq_l. by_compute. }
  do 4 f_equal. unfold dict_to_list, default_columns. cbn [fmap list_fmap].
  rewrite lookup_insert_eq.
  rewrite !(lookup_insert_ne _ "id") by discriminate.
  rewrite !(lookup_insert_ne _ "date_added") by discriminate.
  by rewrite lookup_insert_eq.
Qed.

Lemma add_contact_on_default_table_witness :
  file (AddContactCommand_execute "2023-05-01T10:00:00"
          {["last_name" := Some "Doe"; "first_name" := Some "Jane";
            "middle_name" := None; "personal_phone" := Some "555-1111"]}
          None (init None)).2
  = Some [default_columns;
          ["1"; "Doe"; "Jane"; ""; ""; "555-1111"; "2023-05-01T10:00:00"]].
Proof.
  destruct (add_contact_on_default_table "2023-05-01T10:00:00" [] (init None)
              {["last_name" := Some "Doe"; "first_name" := Some "Jane";
                "middle_name" := None; "personal_phone" := Some "555-1111"]} None)
    as (lines & Hlines & Hadd).
  - reflexivity.
  - by_compute.
  - rewrite Hadd. injection Hlines as <-. vm_compute. reflexivity.
Defined.

(** ** A line longer than the header *)

Lemma fields_lookup_is_Some (header r : list string) key :
  key ∈ header → is_Some (fields (DictReader_row header r) !! key).
Proof.
  intros Hkey.
  assert (∀ (acc : gmap string (option string)) ks (vs : list string),
            is_Some (acc !! key) →
            is_Some (foldl (λ d kv, <[kv.1 := Some kv.2]> d) acc (zip ks vs) !! key))
    as Hzip.
  { intros acc ks. revert acc. induction ks as [|k ks IH]; intros acc vs Hacc; [done|].
    destruct vs as [|v vs]; [done|]. cbn. apply IH.
    destruct (decide (k = key)) as [->|?].
    - rewrite lookup_insert_eq. by eexists.
    - by rewrite lookup_insert_ne. }
  unfold DictReader_row.
  destruct (Nat.ltb_spec (length header) (length r)) as [Hlong|Hshort]; cbn [fields].
  - (* every column has a field *)
    unfold dict_zip. generalize (∅ : gmap string (option string)) as acc.
    revert r Hlong. induction header as [|k ks IH]; intros r Hlong acc.
    { by apply elem_of_nil in Hkey. }
    destruct r as [|v r]; [cbn in Hlong; lia|]. cbn.
    destruct (decide (key ∈ ks)) as [Hin|Hout].
    + apply IH; [done | cbn in Hlong; lia].
    + apply elem_of_cons in Hkey as [->|?]; [|done].
      apply Hzip. rewrite lookup_insert_eq. by eexists.
  - destruct (Nat.ltb_spec (length r) (length header)) as [Hlt|Hge]; cbn [fields].
    + destruct (decide (key ∈ drop (length r) header)) as [Hin|Hout].
      * rewrite pad_None_lookup_in by done. by eexists.
      * rewrite pad_None_lookup_notin by done.
        rewrite <- (take_drop (length r) header) in Hkey.
        apply elem_of_app in Hkey as [Hkey|?]; [|done].
        apply list_elem_of_lookup in Hkey as [i Hi].
        pose proof (lookup_lt_Some _ _ _ Hi) as Hilt. rewrite length_take in Hilt.
        rewrite lookup_take_lt in Hi by lia.
        destruct (lookup_lt_is_Some_2 r i) as [v Hv]; [lia|].
        clear Hout Hilt Hlt Hshort. unfold dict_zip.
        generalize (∅ : gmap string (option string)) as acc.
        revert r i Hi Hv. induction header as [|k ks IH]; intros r i Hi Hv acc; [done|].
        destruct r as [|v' r]; [done|]. cbn.
        destruct i as [|i]; cbn in *.
        -- injection Hi as ->. apply Hzip. rewrite lookup_insert_eq. by eexists.
        -- by eapply IH.
    + assert (length r = length header) as Hlen by lia.
      destruct (fields_lookup_in header r key Hlen Hkey) as [s Hs].
      rewrite DictReader_row_same_length in Hs by done. by eexists.
Qed.

Lemma matches_exactly_total_any (header r : list string) criteria :
  Forall (λ kv : string * string, kv.1 ∈ header) criteria →
  ∃ b, matches_exactly criteria (DictReader_row header r) = Ok b.
Proof.
  intros Hkeys.
  destruct (matches_exactly criteria (DictReader_row header r)) as [b|e] eqn:Hm;
    [by eexists|].
  apply matches_exactly_Raise in Hm as (kv & Hin & Hnone).
  rewrite Forall_forall in Hkeys.
  destruct (fields_lookup_is_Some header r kv.1 (Hkeys kv Hin)) as [v Hv].
  congruence.
Qed.

Lemma filter__keep_all criteria (records : list record) :
  Forall (λ d, ∃ b, matches_exactly criteria d = Ok b) records →
  filter_ (λ d, b ← matches_exactly criteria d; Ok (negb b)) records
  = Ok (filter (λ d, ¬ matches_all criteria d) records).
Proof.
  intros Htotal.
  destruct (filter_ _ records) as [l|e] eqn:Hf.
  - by rewrite (filter__Ok_matches _ _ _ Hf).
  - apply filter__raise in Hf as (d & Hd & Hraise).
    rewrite Forall_forall in Htotal. destruct (Htotal d Hd) as [b Hb].
    by rewrite Hb in Hraise.
Qed.

(** X16: a line with more fields than the header cannot be written back.
    With distinct columns and criteria over columns of the schema, when
    such a line follows rectangular lines and does not match the criteria,
    [delete] raises [ValueError] after it has emptied the file and written
    the header and those of the lines before that do not match: the long
    line and every line after it are lost. *)
Theorem delete_stops_at_long_line (header : list string) before r after criteria :
  NoDup header → header ≠ [] → rectangular header before →
  (length header < length r)%nat →
  Forall (λ kv : string * string, kv.1 ∈ header) criteria →
  ¬ matches_all criteria (DictReader_row header r) →
  delete criteria
    {| file := Some (header :: before ++ r :: after); field_names := Some header |}
  = (Raise ValueError,
     {| file := Some (header ::
          filter (λ r', ¬ matches_all criteria (DictReader_row header r')) before);
        field_names := Some header |}).
Proof.
  intros Hnd Hne Hrect Hlong Hkeys Hnomatch. unfold delete.
  rewrite list_unfiltered. cbn [DictReader].
  rewrite filter_app, filter_cons, (rectangular_no_blank header before) by done.
  destruct (decide (r ≠ [])) as [_|Hblank];
    [|destruct r; [cbn in Hlong; lia | by destruct Hblank]].
  rewrite fmap_app, fmap_cons.
  rewrite filter__keep_all; last first.
  { apply Forall_forall. intros d Hd.
    apply elem_of_app in Hd as [Hd|Hd].
    - apply list_elem_of_fmap in Hd as (r' & -> & _).
      by apply matches_exactly_total_any.
    - apply elem_of_cons in Hd as [->|Hd]; [by apply matches_exactly_total_any|].
      apply list_elem_of_fmap in Hd as (r' & -> & _).
      by apply matches_exactly_total_any. }
  rewrite filter_app, filter_cons, decide_True by done.
  rewrite filter_fmap_list.
  unfold _overwrite_with. cbn [field_names].
  rewrite writerows_app, writerows_DictReader_row; [|done|by apply rectangular_filter].
  cbn [writerows]. unfold DictWriter_row, DictReader_row.
  destruct (Nat.ltb_spec (length header) (length r)) as [_|?]; [|lia].
  cbn [rest fields]. rewrite (bool_decide_eq_false_2 (Some _ = None)) by done.
  by rewrite andb_false_r.
Qed.

Lemma delete_stops_at_long_line_witness :
  let header := ["id"; "name"] in
  delete [("id", "9")]
    {| file := Some [header; ["1"; "Ann"]; ["2"; "Bob"; "extra"]; ["3"; "Cy"]];
       field_names := Some header |}
  = (Raise ValueError,
     {| file := Some [header; ["1"; "Ann"]]; field_names := Some header |}).
Proof.
  intros header.
  refine (eq_trans (delete_stops_at_long_line header [["1"; "Ann"]]
                      ["2"; "Bob"; "extra"] [["3"; "Cy"]] [("id", "9")]
                      _ _ _ _ _ _) _).
  - by_compute.
  - discriminate.
  - unfold rectangular. by_compute.
  - simpl. lia.
  - by_compute.
  - by_compute.
  - vm_compute. reflexivity.
Defined.

(** ** Cleaning a search query *)







(** ** Editing a contact by its id *)

Lemma StronglySorted_lookup_lt {A} (R : relation A) (l : list A) (i j : nat) x y :
  StronglySorted R l → l !! i = Some x → l !! j = Some y → (i < j)%nat → R x y.
Proof.
  intros Hsorted. revert i j. induction Hsorted as [|z l _ IH Hz]; intros i j Hi Hj Hlt.
  { done. }
  destruct j as [|j]; [lia|]. destruct i as [|i]; cbn in *.
  - injection Hi as ->. rewrite Forall_forall in Hz. apply Hz.
    by eapply list_elem_of_lookup_2.
  - eapply IH; [done..|lia].
Qed.

(** Two lines of a table with growing ids do not carry the same id. *)
Lemma ids_increasing_same_id (header : list string) rows (i j : nat) r1 r2 :
  ids_increasing header rows → rows !! i = Some r1 → rows !! j = Some r2 →
  row_id header r1 = row_id header r2 → i = j.
Proof.
  intros [Hsorted _] Hi Hj Hsame.
  destruct (Nat.lt_trichotomy i j) as [Hlt|[?|Hlt]]; [|done|].
  - destruct (StronglySorted_lookup_lt _ _ _ _ _ _ Hsorted Hi Hj Hlt)
      as (n & m & Hn & Hm & ?). rewrite Hn, Hm in Hsame. injection Hsame. lia.
  - destruct (StronglySorted_lookup_lt _ _ _ _ _ _ Hsorted Hj Hi Hlt)
      as (n & m & Hn & Hm & ?). rewrite Hn, Hm in Hsame. injection Hsame. lia.
Qed.

(** X18: on a table just created, with distinct columns among which [id],
    after any adds and deletes that did not raise, [EditContactCommand]
    with update fields over the columns does not raise, keeps the number of lines
    and changes at most one line: the ids being distinct, the criteria
    [{'id': id}] select one record at most. *)
Theorem edit_contact_changes_one_line (columns : list string) ops (st : manager)
    (id : string) (changes : list (string * option string)) :
  NoDup columns → "id" ∈ columns →
  run ops (fresh columns) = (Ok (), st) →
  Forall (λ kv : string * option string, kv.1 ∈ columns) changes →
  ∃ rows rows',
    st = {| file := Some (columns :: rows); field_names := Some columns |}
    ∧ EditContactCommand_execute id changes st
      = (Ok (), {| file := Some (columns :: rows'); field_names := Some columns |})
    ∧ length rows' = length rows
    ∧ ∀ i j : nat, rows' !! i ≠ rows !! i → rows' !! j ≠ rows !! j → i = j.
Proof.
  intros Hnd Hid Hrun Hchanges.
  destruct (run_table_inv columns ops _ st Hnd Hid (table_inv_fresh columns Hid) Hrun)
    as (rows & -> & Hrect & Hinc).
  eexists rows, _. split; [done|]. unfold EditContactCommand_execute.
  split; [|split].
  - apply update_file; [|by repeat constructor|done].
    split; [done|]. split; [|done]. intros ->. by apply elem_of_nil in Hid.
  - by rewrite length_fmap.
  - assert (∀ (i : nat),
              ((λ r, if decide (matches_all [("id", id)] (DictReader_row columns r))
                     then dict_to_list columns
                            (fields (set_items changes (DictReader_row columns r)))
                     else r) <$> rows) !! i ≠ rows !! i →
              ∃ r, rows !! i = Some r ∧ row_id columns r = py_int id) as Hchanged.
    { intros i Hi. rewrite list_lookup_fmap in Hi.
      destruct (rows !! i) as [r|] eqn:Hr; [|done]. cbn in Hi.
      exists r. split; [done|]. case_decide as Hm; [|done].
      unfold matches_all in Hm. apply Forall_cons in Hm as [Hm _]. cbn in Hm.
      unfold row_id, id_of. by rewrite Hm. }
    intros i j Hi Hj.
    destruct (Hchanged i Hi) as (r1 & Hr1 & Hid1).
    destruct (Hchanged j Hj) as (r2 & Hr2 & Hid2).
    eapply ids_increasing_same_id; [done..|congruence].
Qed.

Lemma edit_contact_changes_one_line_witness :
  let columns := ["id"; "last_name"] in
  let named (s : string) : gmap string (option string) := {["last_name" := Some s]} in
  EditContactCommand_execute "2" [("last_name", Some "Poe")]
    {| file := Some [columns; ["1"; "Doe"]; ["2"; "Roe"]]; field_names := Some columns |}
  = (Ok (), {| file := Some [columns; ["1"; "Doe"]; ["2"; "Poe"]];
               field_names := Some columns |}).
Proof.
  intros columns named.
  destruct (edit_contact_changes_one_line columns
              [OpAdd (named "Doe"); OpAdd (named "Roe")]
              {| file := Some [columns; ["1"; "Doe"]; ["2"; "Roe"]];
                 field_names := Some columns |}
              "2" [("last_name", Some "Poe")])
    as (rows & rows' & _ & Hedit & _).
  - by_compute.
  - by_compute.
  - vm_compute. reflexivity.
  - by_compute.
  - rewrite Hedit. f_equal.
    assert ((EditContactCommand_execute "2" [("last_name", Some "Poe")]
               {| file := Some [columns; ["1"; "Doe"]; ["2"; "Roe"]];
                  field_names := Some columns |}).2
            = {| file := Some [columns; ["1"; "Doe"]; ["2"; "Poe"]];
                 field_names := Some columns |}) as Hrun
      by (vm_compute; reflexivity).
    rewrite Hedit in Hrun. exact Hrun.
Defined.

(** ** Criteria on a column that is not in the schema *)

(** X19: on a table with at least one line and rectangular lines, [delete]
    and [update] whose first criterion names a column outside the schema
    raise [KeyError] for that column before the file is opened for writing:
    the state is left as it was, whatever the update fields. *)
Theorem rewrite_with_unknown_criterion (header : list string) r rows fn
    (key value : string) criteria (data : list (string * option string)) :
  header ≠ [] → rectangular header (r :: rows) → key ∉ header →
  let st := {| file := Some (header :: r :: rows); field_names := fn |} in
  delete ((key, value) :: criteria) st = (Raise (KeyError key), st)
  ∧ update ((key, value) :: criteria) data st = (Raise (KeyError key), st).
Proof.
  intros Hne Hrect Hkey st.
  assert (matches_exactly ((key, value) :: criteria) (DictReader_row header r)
          = Raise (KeyError key)) as Hraise.
  { unfold matches_exactly, getitem. cbn.
    apply Forall_cons in Hrect as [Hlen _]. by rewrite fields_lookup_notin. }
  unfold delete, update, st. rewrite list_unfiltered. cbn [DictReader].
  rewrite (rectangular_no_blank header) by done.
  cbn [fmap list_fmap filter_ map_]. by rewrite Hraise.
Qed.

Lemma rewrite_with_unknown_criterion_witness :
  let st := {| file := Some [["id"; "name"]; ["1"; "Ann"]];
               field_names := Some ["id"; "name"] |} in
  delete [("nickname", "x")] st = (Raise (KeyError "nickname"), st)
  ∧ update [("nickname", "x")] [("name", Some "Bob")] st
    = (Raise (KeyError "nickname"), st).
Proof.
  intros st.
  apply (rewrite_with_unknown_criterion ["id"; "name"] ["1"; "Ann"] []
           (Some ["id"; "name"]) "nickname" "x" [] [("name", Some "Bob")]).
  - discriminate.
  - unfold rectangular. by_compute.
  - by_compute.
Defined.

(** ** Choosing an option of the menu *)


